(** * NFL coaching tree scraper: a shallow embedding and its properties

    The development follows the three scripts of the repository:
    - [scrape_coaches.py]            (module [Crawl]),
    - [patch_klint_kubiak.py]        (module [PatchKlint]),
    - [patch_missing_connections.py] (module [PatchMissing]).

    The Python runtime the scripts rely on (text, the [re] engine, the
    parsed document tree of bs4) is modelled first. *)

From Stdlib Require Import NArith ZArith Lia String Ascii Bool DecimalString.
From Stdlib Require List.
From stdpp Require Import base decidable option list gmap sets.

Set Default Goal Selector "!".
Set Warnings "-clear-no-such-hyp".

(* ===================================================================== *)
(** * Python text                                                         *)
(* ===================================================================== *)

(** A Python [str] is a sequence of Unicode code points. *)
Definition str := list N.

(** An ASCII literal of the source, as code points. *)
Definition py (s : string) : str :=
  map N_of_ascii (list_ascii_of_string s).
Arguments py s%_string.

Definition EN_DASH : N := 8211.      (* U+2013, the en dash of the year patterns *)
Definition E_ACUTE : N := 233.       (* U+00E9 *)
Definition LONG_S : N := 383.        (* U+017F *)

(** [str.isspace] on one code point; also the class [\s] of [re] and the
    characters [str.strip] and [str.split] remove. *)
Definition isspace (c : N) : bool :=
  ((9 <=? c) && (c <=? 13) || (28 <=? c) && (c <=? 32) || (c =? 133)
   || (c =? 160) || (c =? 5760) || (8192 <=? c) && (c <=? 8202)
   || (c =? 8232) || (c =? 8233) || (c =? 8239) || (c =? 8287)
   || (c =? 12288))%N.

Definition str_eqb (a b : str) : bool := bool_decide (a = b).

Fixpoint lstrip (s : str) : str :=
  match s with
  | c :: s' => if isspace c then lstrip s' else s
  | [] => []
  end.

Definition rstrip (s : str) : str := rev (lstrip (rev s)).

(** [s.strip()] *)
Definition strip (s : str) : str := rstrip (lstrip s).

Fixpoint split_aux (cur : str) (s : str) : list str :=
  match s with
  | [] => match cur with [] => [] | _ => [rev cur] end
  | c :: s' =>
      if isspace c
      then match cur with
           | [] => split_aux [] s'
           | _ => rev cur :: split_aux [] s'
           end
      else split_aux (c :: cur) s'
  end.

(** [s.split()]: the maximal runs of non-whitespace. *)
Definition split (s : str) : list str := split_aux [] s.

Fixpoint startswith (p s : str) : bool :=
  match p, s with
  | [], _ => true
  | a :: p', b :: s' => (a =? b)%N && startswith p' s'
  | _ :: _, [] => false
  end.

(** [sub in s] *)
Fixpoint contains (sub s : str) : bool :=
  startswith sub s ||
  match s with
  | [] => false
  | _ :: s' => contains sub s'
  end.

Fixpoint split_sep_aux (sep : str) (skip : nat) (cur : str) (s : str)
  : list str :=
  match s with
  | [] => [rev cur]
  | c :: s' =>
      match skip with
      | S n => split_sep_aux sep n cur s'
      | O =>
          if startswith sep s
          then rev cur :: split_sep_aux sep (length sep - 1) [] s'
          else split_sep_aux sep 0 (c :: cur) s'
      end
  end.

(** [s.split(sep)] for a non-empty separator. *)
Definition split_sep (sep s : str) : list str := split_sep_aux sep 0 [] s.

Fixpoint join (sep : str) (l : list str) : str :=
  match l with
  | [] => []
  | [x] => x
  | x :: l' => x ++ sep ++ join sep l'
  end.

(** [s.replace(old, new)] for a non-empty [old]. *)
Definition replace (old new s : str) : str := join new (split_sep old s).

(** Truthiness of a string. *)
Definition nonempty (s : str) : bool :=
  match s with [] => false | _ => true end.

(* ===================================================================== *)
(** * The parsed document (bs4)                                           *)
(* ===================================================================== *)

(** What the scripts observe of a bs4 tree: tags with a name, attributes
    and children, and the text nodes [get_text] collects.  Comments and
    the other string kinds [get_text] leaves out are invisible to every
    call the scripts make and are not represented. *)
#[warnings="-register-all"]
Inductive node :=
| Text (s : str)
| Tag (name : str) (attrs : list (str * str)) (children : list node).

(* ===================================================================== *)
(** * The interpreter and its libraries                                   *)
(* ===================================================================== *)

Definition ascii_lower (c : N) : N :=
  if ((65 <=? c) && (c <=? 90))%N then (c + 32)%N else c.

Definition is_ascii (c : N) : Prop := (c < 128)%N.

(** The parts of the Python installation the scripts call into and that
    are tables or parsers of their own: the Unicode character database
    (decimal digits, lower-casing), [urllib.parse.unquote] and the HTML
    parser behind [BeautifulSoup(markup, "html.parser")].  The laws are the
    ones every CPython 3 satisfies on Basic Latin. *)
Class PyEnv := {
  (** decimal value of a code point of category Nd: the class [\d] of
      [re] and the digits [int] accepts *)
  decimal : N → option Z;
  (** [str.lower] *)
  lower : str → str;
  unquote : str → str;
  BeautifulSoup : str → node;
  decimal_ascii : ∀ c, is_ascii c →
    decimal c = if ((48 <=? c) && (c <=? 57))%N
                then Some (Z.of_N c - 48)%Z else None;
  decimal_range : ∀ c d, decimal c = Some d → (0 ≤ d < 10)%Z;
  decimal_space : ∀ c, isspace c = true → decimal c = None;
  lower_ascii : ∀ s, Forall is_ascii s → lower s = map ascii_lower s;
  (** decimal digits have no case *)
  lower_decimal : ∀ s, Forall (λ c, is_Some (decimal c)) s → lower s = s;
}.

(* ===================================================================== *)
(** * The [re] engine                                                     *)
(* ===================================================================== *)

(** The fragment of the pattern language the scripts use.  Repetition is
    only ever applied to a single-character class. *)
Inductive regex :=
| Eps                           (* the empty pattern *)
| Chr (p : N → bool)            (* one code point of a class *)
| Cat (r1 r2 : regex)           (* r1 r2 *)
| Alt (r1 r2 : regex)           (* r1|r2 *)
| Star (p : N → bool)           (* c*   (greedy) *)
| StarLazy (p : N → bool)       (* c*?  (lazy) *)
| Grp (r : regex).              (* (r)  capturing *)

(** Backtracking matcher in continuation-passing style: [k] receives the
    groups captured so far and the rest of the text, and a [None] from it
    makes the matcher try its next alternative, in the order [re] does. *)
Fixpoint rmatch {A} (r : regex) (caps : list str) (s : str)
    (k : list str → str → option A) : option A :=
  match r with
  | Eps => k caps s
  | Chr p =>
      match s with
      | c :: s' => if p c then k caps s' else None
      | [] => None
      end
  | Cat r1 r2 => rmatch r1 caps s (λ caps' s', rmatch r2 caps' s' k)
  | Alt r1 r2 =>
      match rmatch r1 caps s k with
      | Some x => Some x
      | None => rmatch r2 caps s k
      end
  | Star p =>
      (fix star (s : str) : option A :=
         match s with
         | c :: s' =>
             if p c
             then match star s' with
                  | Some x => Some x
                  | None => k caps s
                  end
             else k caps s
         | [] => k caps s
         end) s
  | StarLazy p =>
      (fix lazy (s : str) : option A :=
         match k caps s with
         | Some x => Some x
         | None =>
             match s with
             | c :: s' => if p c then lazy s' else None
             | [] => None
             end
         end) s
  | Grp r1 =>
      rmatch r1 caps s
        (λ caps' s', k (caps' ++ [take (length s - length s')%nat s]) s')
  end.

(** A match anchored at the start of [s]: the groups and the text left. *)
Definition match_here (r : regex) (s : str) : option (list str * str) :=
  rmatch r [] s (λ caps rest, Some (caps, rest)).

(** A match object: the text before the match, the matched text, the
    groups, and the text after the match. *)
Record rematch := ReMatch {
  m_before : str;
  m_text : str;
  m_groups : list str;
  m_after : str;
}.

Fixpoint search_from (r : regex) (before : str) (s : str) : option rematch :=
  match match_here r s with
  | Some (caps, rest) =>
      Some (ReMatch (rev before) (take (length s - length rest)%nat s) caps rest)
  | None =>
      match s with
      | [] => None
      | c :: s' => search_from r (c :: before) s'
      end
  end.

(** [re.search(r, s)]: the leftmost match. *)
Definition re_search (r : regex) (s : str) : option rematch :=
  search_from r [] s.

(** The successive non-overlapping matches, left to right.  Every pattern
    the scripts iterate over consumes at least one code point; after an
    empty match the scan moves on by one code point. *)
Fixpoint finditer_aux (fuel : nat) (r : regex) (s : str) : list rematch :=
  match fuel with
  | O => []
  | S fuel' =>
      match re_search r s with
      | None => []
      | Some m =>
          m :: match m_text m, m_after m with
               | [], [] => []
               | [], _ :: rest => finditer_aux fuel' r rest
               | _ :: _, rest => finditer_aux fuel' r rest
               end
      end
  end.

Definition finditer (r : regex) (s : str) : list rematch :=
  finditer_aux (S (length s)) r s.

(** [re.findall(r, s)] for a pattern with groups: the groups of each match. *)
Definition re_findall (r : regex) (s : str) : list (list str) :=
  map m_groups (finditer r s).

(** [re.sub(r, repl, s)] for a literal replacement. *)
Fixpoint sub_pieces (repl : str) (ms : list rematch) (s : str) : str :=
  match ms with
  | [] => s
  | m :: ms' => m_before m ++ repl ++ sub_pieces repl ms' (m_after m)
  end.

Definition re_sub (r : regex) (repl s : str) : str :=
  sub_pieces repl (finditer r s) s.

(** [re.split(r, s)] for a pattern without groups. *)
Fixpoint split_pieces (ms : list rematch) (s : str) : list str :=
  match ms with
  | [] => [s]
  | m :: ms' => m_before m :: split_pieces ms' (m_after m)
  end.

Definition re_split (r : regex) (s : str) : list str :=
  split_pieces (finditer r s) s.

(** Character classes. *)
Definition lit (c : N) : N → bool := N.eqb c.
Definition one_of (cs : list N) : N → bool := λ x, existsb (N.eqb x) cs.
Definition none_of (cs : list N) : N → bool := λ x, negb (one_of cs x).
Definition any_but_newline : N → bool := λ x, negb (x =? 10)%N.

(** The non-ASCII code points that [re.IGNORECASE] lets a lower-case ASCII
    letter match besides its two cases. *)
Definition case_fixes (c : N) : list N :=
  if (c =? 105)%N then [304; 305]%N          (* i: U+0130, U+0131 *)
  else if (c =? 107)%N then [8490]%N         (* k: U+212A *)
  else if (c =? 115)%N then [LONG_S]         (* s: U+017F *)
  else [].

Definition is_ascii_letter (c : N) : bool :=
  ((65 <=? c) && (c <=? 90) || (97 <=? c) && (c <=? 122))%N.

(** A literal code point of a pattern compiled with [re.IGNORECASE]. *)
Definition lit_i (c : N) : N → bool :=
  if is_ascii_letter c
  then let lo := ascii_lower c in
       λ x, (x =? lo)%N || (x =? lo - 32)%N || one_of (case_fixes lo) x
  else lit c.

Definition digit `{PyEnv} : N → bool := λ x, bool_decide (is_Some (decimal x)).

(** A literal word of a pattern compiled with [re.IGNORECASE]. *)
Definition word_i (w : str) : regex :=
  foldr (λ c r, Cat (Chr (lit_i c)) r) Eps w.

(** [\d{4}] *)
Definition digit4 `{PyEnv} : regex :=
  Cat (Chr digit) (Cat (Chr digit) (Cat (Chr digit) (Chr digit))).

(** [(\d{4})\s*[-–]\s*(\d{4}|present)] with [re.IGNORECASE] *)
Definition YEAR_RANGE `{PyEnv} : regex :=
  Cat (Grp digit4)
   (Cat (Star isspace)
     (Cat (Chr (one_of [45; EN_DASH]%N))
       (Cat (Star isspace)
         (Grp (Alt digit4 (word_i (py "present"))))))).

(** [\((\d{4})\)] *)
Definition PAREN_YEAR `{PyEnv} : regex :=
  Cat (Chr (lit 40)) (Cat (Grp digit4) (Chr (lit 41))).

(** [match.group(i)], groups counted from 1. *)
Definition group (m : rematch) (i : nat) : str :=
  nth (i - 1) (m_groups m) [].

(** [extract_years_from_context]: the two scripts have the same text. *)
Definition extract_years_from_context `{PyEnv} (context_text : str)
  : option str :=
  match re_search YEAR_RANGE context_text with
  | Some m => Some (group m 1 ++ py "-" ++ group m 2)
  | None =>
      match re_search PAREN_YEAR context_text with
      | Some m => Some (group m 1)
      | None => None
      end
  end.

(** [\d] *)
Definition DIGIT `{PyEnv} : regex := Chr digit.

(** [[()]] *)
Definition PARENS : regex := Chr (one_of [40; 41]%N).

(** [int(s)] on a string of decimal digits; [None] stands for the
    [ValueError] raised on a string with any other code point.  The
    scripts call [int] on groups of the year patterns only: four digits or
    a spelling of the word [present]. *)
Definition py_int `{PyEnv} (s : str) : option Z :=
  match s with
  | [] => None
  | _ => foldl (λ acc c, a ← acc; d ← decimal c; Some (10 * a + d)%Z)
               (Some 0%Z) s
  end.

(** [str(n)] of an integer, as in an f-string. *)
Definition str_of_int (n : Z) : str :=
  py (NilZero.string_of_int (Z.to_int n)).

(* ===================================================================== *)
(** * bs4 calls                                                           *)
(* ===================================================================== *)

(** [tag.descendants]: the nodes below a tag in document order. *)
Fixpoint descendants (n : node) : list node :=
  match n with
  | Text _ => []
  | Tag _ _ cs =>
      (fix go (l : list node) : list node :=
         match l with
         | [] => []
         | c :: l' => c :: descendants c ++ go l'
         end) cs
  end.

Definition has_name (names : list str) (n : node) : bool :=
  match n with
  | Tag name _ _ => bool_decide (name ∈ names)
  | Text _ => false
  end.

(** [tag.find_all(names)] *)
Definition find_all (names : list str) (n : node) : list node :=
  List.filter (has_name names) (descendants n).

(** [tag.find(name)] *)
Definition find (name : str) (n : node) : option node :=
  head (find_all [name] n).

Fixpoint assoc {V} (k : str) (l : list (str * V)) : option V :=
  match l with
  | [] => None
  | (k', v) :: l' => if str_eqb k k' then Some v else assoc k l'
  end.

(** [tag.get(key, default)] *)
Definition tag_get (n : node) (key default : str) : str :=
  match n with
  | Tag _ attrs _ => from_option (λ v, v) default (assoc key attrs)
  | Text _ => default
  end.

(** Whether a tag carries the CSS class [cls] (the [class_=] filter). *)
Definition has_class (cls : str) (n : node) : bool :=
  match n with
  | Tag _ attrs _ =>
      match assoc (py "class") attrs with
      | Some v => bool_decide (cls ∈ split v)
      | None => false
      end
  | Text _ => false
  end.

(** [soup.find(name, class_=cls)] *)
Definition find_class (name cls : str) (n : node) : option node :=
  head (List.filter (has_class cls) (find_all [name] n)).

Definition text_of (n : node) : list str :=
  match n with
  | Text s => [s]
  | Tag _ _ _ => []
  end.

(** [tag.get_text(strip=True)]: every text node below the tag stripped,
    the empty ones dropped, the rest concatenated. *)
Definition get_text (n : node) : str :=
  concat (List.filter nonempty (map strip (flat_map text_of (descendants n)))).

(* ===================================================================== *)
(** * The data model shared by the three scripts                          *)
(* ===================================================================== *)

Record coach := Coach {
  coach_id : str;
  coach_name : str;
  current_team : option str;
  is_current_hc : bool;
}.

Inductive conn_type := coaching_tree | career_overlap.

Record connection := Connection {
  source : str;
  target : str;
  ctype : conn_type;
  years : option str;
  context : option str;
}.

(** The persisted JSON object. *)
Record dataset := Dataset {
  coaches : list coach;
  connections : list connection;
  team_colors : list (str * str);
}.

#[export] Instance coach_eq_dec : EqDecision coach.
Proof. solve_decision. Defined.
#[export] Instance conn_type_eq_dec : EqDecision conn_type.
Proof. solve_decision. Defined.
#[export] Instance connection_eq_dec : EqDecision connection.
Proof. solve_decision. Defined.

Inductive relationship := mentor | protege.

#[export] Instance relationship_eq_dec : EqDecision relationship.
Proof. solve_decision. Defined.

(** One result of [parse_coaching_tree_section]:
    [(linked_name, page_title, relationship, context_text)]. *)
Definition tree_member : Type := str * str * relationship * str.

(** A Python [dict] with string keys, in insertion order. *)
Definition dict (V : Type) : Type := list (str * V).

(** [d[k] = v]: in place when the key exists, at the end otherwise. *)
Fixpoint dict_set {V} (d : dict V) (k : str) (v : V) : dict V :=
  match d with
  | [] => [(k, v)]
  | (k', v') :: d' =>
      if str_eqb k k' then (k, v) :: d' else (k', v') :: dict_set d' k v
  end.

(** [k in d] *)
Definition dict_has {V} (d : dict V) (k : str) : bool :=
  bool_decide (is_Some (assoc k d)).

(* ===================================================================== *)
(** * The network                                                         *)
(* ===================================================================== *)

Inductive exn :=
| Timeout | ConnectionError | HTTPError (status : Z)
| JSONDecodeError | TypeError | KeyError | ValueError.

(** What the scripts observe of the decoded body of a response. *)
Inductive body :=
| NotJson                 (* [resp.json()] raises *)
| NotIndexable (e : exn)  (* the membership tests or the subscripts raise *)
| NoParseText             (* ["parse" in data and "text" in data["parse"]] is false *)
| PageText (html : str).  (* [data["parse"]["text"]["*"]] *)

(** The outcome of [SESSION.get(API_URL, params=..., timeout=30)]. *)
Inductive http_outcome :=
| Fails (e : exn)
| Response (status_code : Z) (b : body).

Inductive result (A : Type) :=
| Ok (a : A)
| Raise (e : exn).
Arguments Ok {A} a.
Arguments Raise {A} e.

#[export] Instance result_ret : MRet result := λ A, Ok.
#[export] Instance result_bind : MBind result := λ A B f r,
  match r with
  | Ok a => f a
  | Raise e => Raise e
  end.

(** [resp.raise_for_status()] *)
Definition raise_for_status (status_code : Z) : result unit :=
  if ((400 <=? status_code) && (status_code <? 600))%Z
  then Raise (HTTPError status_code) else Ok ().

(** The body of both [fetch_page_html]: the request, the status check, the
    decoding and the lookup of the page text. *)
Definition fetch_body (o : http_outcome) : result (option str) :=
  match o with
  | Fails e => Raise e
  | Response status_code b =>
      raise_for_status status_code;;
      match b with
      | NotJson => Raise JSONDecodeError
      | NotIndexable e => Raise e
      | NoParseText => Ok None
      | PageText html => Ok (Some html)
      end
  end.

(** [not html] for the optional page text. *)
Definition no_html (html : option str) : bool :=
  match html with
  | None => true
  | Some h => negb (nonempty h)
  end.

(* ===================================================================== *)
(** * Functions with the same text in the crawl and the patch script      *)
(* ===================================================================== *)

Section Shared.
Context `{PyEnv}.

(** [\s*\(.*?\)\s*] *)
Definition PARENTHETICAL : regex :=
  Cat (Star isspace)
   (Cat (Chr (lit 40))
     (Cat (StarLazy any_but_newline)
       (Cat (Chr (lit 41)) (Star isspace)))).

(** [[^a-z0-9\s-]] *)
Definition NOT_ID_CHAR : regex :=
  Chr (λ x, negb ((97 <=? x) && (x <=? 122) || (48 <=? x) && (x <=? 57)
                  || isspace x || (x =? 45))%N).

(** [\s+] *)
Definition SPACES : regex := Cat (Chr isspace) (Star isspace).

(** Convert a coach name to a URL-friendly ID. *)
Definition make_id (name : str) : str :=
  let name := strip name in
  let name := re_sub PARENTHETICAL [] name in
  let name := lower name in
  let name := re_sub NOT_ID_CHAR [] name in
  re_sub SPACES (py "-") name.

(** Extract the Wikipedia page title from a link tag. *)
Definition extract_link_title (a_tag : node) : option str :=
  let href := tag_get a_tag (py "href") [] in
  if contains (py "/wiki/") href
  then
    let after := nth 1 (split_sep (py "/wiki/") href) [] in
    if contains (py ":") after && negb (startswith (py "%") after)
    then None
    else Some (replace (py "_") (py " ") (unquote after))
  else None.

(** [<h([23])\s[^>]*id="[^"]*SUBSTRING[^"]*"[^>]*>] with [re.IGNORECASE];
    [re.escape] leaves the heading ids the scripts pass as they are. *)
Definition heading_pattern (heading_id_substring : str) : regex :=
  Cat (Chr (lit_i 60))
   (Cat (Chr (lit_i 104))
     (Cat (Grp (Chr (one_of [50; 51]%N)))
       (Cat (Chr isspace)
         (Cat (Star (none_of [62]%N))
           (Cat (word_i (py "id=" ++ [34]%N))
             (Cat (Star (none_of [34]%N))
               (Cat (word_i heading_id_substring)
                 (Cat (Star (none_of [34]%N))
                   (Cat (Chr (lit_i 34))
                     (Cat (Star (none_of [62]%N))
                          (Chr (lit_i 62)))))))))))).

(** [<h[1-LEVEL][\s>]] with [re.IGNORECASE] *)
Definition next_heading_pattern (heading_level : str) : regex :=
  Cat (Chr (lit_i 60))
   (Cat (Chr (lit_i 104))
     (Cat (Chr (λ x, (49 <=? x) && (x <=? nth 0 heading_level 0))%N)
          (Chr (λ x, isspace x || (x =? 62)%N)))).

(** The markup between the heading whose id contains the substring and
    the next heading of the same or a higher level, parsed; [None] is the
    empty list the source returns when there is no such heading. *)
Definition get_elements_after_heading (html heading_id_substring : str)
  : option node :=
  match re_search (heading_pattern heading_id_substring) html with
  | None => None
  | Some m =>
      let heading_level := group m 1 in
      let section_html :=
        match re_search (next_heading_pattern heading_level) (m_after m) with
        | Some end_match => m_before end_match
        | None => m_after m
        end in
      Some (BeautifulSoup section_html)
  end.

(** The first heading spelling that is found. *)
Fixpoint first_section (html : str) (alts : list str) : option node :=
  match alts with
  | [] => None
  | alt :: alts' =>
      match get_elements_after_heading html alt with
      | Some section_soup => Some section_soup
      | None => first_section html alts'
      end
  end.

Definition find_section (html : str) : option node :=
  match get_elements_after_heading html (py "Coaching_tree") with
  | Some section_soup => Some section_soup
  | None =>
      first_section html
        [py "coaching_tree"; py "Coaching_Tree"; py "Coaching/executive_tree"]
  end.

(** [int(s)], raising [ValueError]. *)
Definition int (s : str) : result Z :=
  match py_int s with
  | Some z => Ok z
  | None => Raise ValueError
  end.

(** The end year the word [present] stands for. *)
Definition PRESENT_YEAR : Z := 2025.

(** The year pairs of one infobox cell: every range, or else the first
    bare four digits taken as start and end. *)
Definition year_matches (text : str) : list (str * str) :=
  match re_findall YEAR_RANGE text with
  | g :: gs => map (λ g, (nth 0 g [], nth 1 g [])) (g :: gs)
  | [] =>
      match re_findall (Grp digit4) text with
      | single_year :: _ => [(nth 0 single_year [], nth 0 single_year [])]
      | [] => []
      end
  end.

(** The team name of one infobox cell. *)
Definition team_text (text : str) : str :=
  let team_text := strip (nth 0 (re_split digit4 text) []) in
  strip (re_sub PARENS [] team_text).

Definition or_unknown (team_text : str) : str :=
  if nonempty team_text then team_text else py "Unknown".

End Shared.

(* ===================================================================== *)
(** * scrape_coaches.py                                                   *)
(* ===================================================================== *)

Module Crawl.
Section Crawl.
Context `{PyEnv}.

Definition TEAM_COLORS : list (str * str) :=
  [ (py "Arizona Cardinals", py "#97233F");
    (py "Atlanta Falcons", py "#A71930");
    (py "Baltimore Ravens", py "#241773");
    (py "Buffalo Bills", py "#00338D");
    (py "Carolina Panthers", py "#0085CA");
    (py "Chicago Bears", py "#0B162A");
    (py "Cincinnati Bengals", py "#FB4F14");
    (py "Cleveland Browns", py "#311D00");
    (py "Dallas Cowboys", py "#003594");
    (py "Denver Broncos", py "#FB4F14");
    (py "Detroit Lions", py "#0076B6");
    (py "Green Bay Packers", py "#203731");
    (py "Houston Texans", py "#03202F");
    (py "Indianapolis Colts", py "#002C5F");
    (py "Jacksonville Jaguars", py "#006778");
    (py "Kansas City Chiefs", py "#E31837");
    (py "Las Vegas Raiders", py "#000000");
    (py "Los Angeles Chargers", py "#0080C6");
    (py "Los Angeles Rams", py "#003594");
    (py "Miami Dolphins", py "#008E97");
    (py "Minnesota Vikings", py "#4F2683");
    (py "New England Patriots", py "#002244");
    (py "New Orleans Saints", py "#D3BC8D");
    (py "New York Giants", py "#0B2265");
    (py "New York Jets", py "#125740");
    (py "Philadelphia Eagles", py "#004C54");
    (py "Pittsburgh Steelers", py "#FFB612");
    (py "San Francisco 49ers", py "#AA0000");
    (py "Seattle Seahawks", py "#002244");
    (py "Tampa Bay Buccaneers", py "#D50A0A");
    (py "Tennessee Titans", py "#0C2340");
    (py "Washington Commanders", py "#5A1414") ].

(** Skip these link texts when looking for person names. *)
Definition SKIP_LINK_WORDS : list str :=
  [ py "coach"; py "football"; py "league"; py "team"; py "bowl";
    py "season"; py "stadium"; py "university"; py "college"; py "school";
    py "conference"; py "national"; py "american"; py "pro bowl";
    py "super bowl"; py "nfl"; py "afl"; py "afc"; py "nfc"; py "division";
    py "playoff"; py "draft"; py "hall of fame"; py "cougars"; py "gators";
    py "bears"; py "tigers"; py "lumberjacks"; py "miners"; py "packers";
    py "vikings"; py "falcons"; py "ravens"; py "bills"; py "panthers";
    py "bengals"; py "browns"; py "cowboys"; py "broncos"; py "lions";
    py "texans"; py "colts"; py "jaguars"; py "chiefs"; py "raiders";
    py "chargers"; py "rams"; py "dolphins"; py "patriots"; py "saints";
    py "giants"; py "jets"; py "eagles"; py "steelers"; py "49ers";
    py "seahawks"; py "buccaneers"; py "titans"; py "commanders";
    py "redskins"; py "oilers" ].

(** Fetch the parsed HTML of a page: whatever the body raises is caught
    ([except Exception]) and the function returns [None]. *)
Definition fetch_page_html (o : http_outcome) : option str :=
  match fetch_body o with
  | Ok html => html
  | Raise e => None
  end.

(** Check if a link text looks like a person's name. *)
Definition is_person_link (link_text : str) : bool :=
  if (length (split link_text) <? 2)%nat then false
  else
    let lower_ := lower link_text in
    if existsb (λ skip, contains skip lower_) SKIP_LINK_WORDS then false
    else match re_search DIGIT link_text with
         | Some _ => false
         | None => true
         end.

(** The update of [current_context] by one paragraph. *)
Definition paragraph_context (p_text : str) (current_context : relationship)
  : relationship :=
  if contains (py "served under") p_text
     || contains (py "has served under") p_text
     || contains (py "worked under") p_text
  then mentor
  else if contains (py "assistant") p_text
          && (contains (py "head coach") p_text
              || contains (py "become") p_text)
  then protege
  else if contains (py "prot" ++ [E_ACUTE] ++ py "g" ++ [E_ACUTE]) p_text
          || contains (py "protege") p_text
  then protege
  else current_context.

(** The first link of a list item with a page title and a person's name:
    its text and its title. *)
Fixpoint first_person_link (links : list node) : option (str * str) :=
  match links with
  | [] => None
  | link :: links' =>
      match extract_link_title link with
      | Some ((_ :: _) as title) =>
          let link_text := get_text link in
          if is_person_link link_text then Some (link_text, title)
          else first_person_link links'
      | _ => first_person_link links'
      end
  end.

(** The result of one list item under the paragraph-level context. *)
Definition list_item (current_context : relationship) (li : node)
  : option tree_member :=
  let li_text := get_text li in
  match first_person_link (find_all [py "a"] li) with
  | None => None
  | Some (link_text, title) =>
      let li_lower := lower li_text in
      let relationship :=
        if contains (py "served under") li_lower
           || contains (py "worked under") li_lower
        then mentor else current_context in
      Some (link_text, title, relationship, take 200 li_text)
  end.

(** The loop over the [p], [ul] and [ol] elements of the section. *)
Fixpoint scan_section (elems : list node) (current_context : relationship)
    (results : list tree_member) : list tree_member :=
  match elems with
  | [] => results
  | elem :: elems' =>
      if has_name [py "p"] elem
      then
        let p_text := lower (get_text elem) in
        scan_section elems' (paragraph_context p_text current_context) results
      else
        let list_items := find_all [py "li"] elem in
        scan_section elems' current_context
          (results ++ omap (list_item current_context) list_items)
  end.

Definition parse_section_soup (section_soup : node) : list tree_member :=
  scan_section (find_all [py "p"; py "ul"; py "ol"] section_soup) protege [].

(** Parse the 'Coaching tree' section of a coach's page. *)
Definition parse_coaching_tree_section (html coach_name : str)
  : list tree_member :=
  match find_section html with
  | None => []
  | Some section_soup => parse_section_soup section_soup
  end.

Record career_entry := CareerEntry {
  team : str;
  role : str;
  year_start : Z;
  year_end : Z;
}.

(** The entries one data cell adds to [career]. *)
Definition cell_entries (text : str) : result (list career_entry) :=
  mapM (λ '(ys, ye),
          ye_int ← (if str_eqb (lower ye) (py "present")
                    then Ok PRESENT_YEAR else int ye);
          let team_text := team_text text in
          ys_int ← int ys;
          Ok (CareerEntry (or_unknown team_text) [] ys_int ye_int))
       (year_matches text).

Definition row_entries (row : node) : result (list career_entry) :=
  ess ← mapM (λ cell, cell_entries (get_text cell)) (find_all [py "td"] row);
  Ok (concat ess).

Definition EXIT_HEADERS : list str :=
  [ py "record"; py "playing career"; py "administrative"; py "executive";
    py "front office"; py "personal info"; py "bowl record";
    py "achievements"; py "honors" ].

(** The loop over the rows of the infobox. *)
Fixpoint scan_rows (rows : list node) (in_coaching : bool)
  : result (list career_entry) :=
  match rows with
  | [] => Ok []
  | row :: rows' =>
      let cells (in_coaching : bool) :=
        if in_coaching
        then es ← row_entries row;
             rest ← scan_rows rows' in_coaching;
             Ok (es ++ rest)
        else scan_rows rows' in_coaching in
      match find (py "th") row with
      | Some header =>
          let header_text := lower (get_text header) in
          if contains (py "coaching career") header_text
             || contains (py "career history") header_text
          then scan_rows rows' true
          else if in_coaching
                  && existsb (λ kw, contains kw header_text) EXIT_HEADERS
          then scan_rows rows' false
          else cells in_coaching
      | None => cells in_coaching
      end
  end.

(** Parse coaching career history from the infobox. *)
Definition parse_career_history (soup : node) : result (list career_entry) :=
  match find_class (py "table") (py "infobox") soup with
  | None => Ok []
  | Some infobox => scan_rows (find_all [py "tr"] infobox) false
  end.

(** ** The crawl *)

(** A seed, as [get_current_head_coaches] returns them. *)
Record seed := Seed {
  seed_name : str;
  seed_page_title : str;
  seed_team : option str;
}.

(** [(name, page_title, team, is_current_hc)] *)
Definition queue_entry : Type := str * str * option str * bool.

(** The variables of [scrape_coaching_trees], and the number of requests
    sent so far. *)
Record state := State {
  coaches_data : dict coach;
  conn_list : list connection;                 (* [connections] *)
  visited : gset str;
  career_data : dict (list career_entry);
  queue : list queue_entry;
  connection_set : gset (str * str);
  depth_map : gmap str nat;
  total_scraped : nat;
  requests : nat;
}.

(** The remote service: the outcome of the [n]-th request, for a title. *)
Definition network : Type := nat → str → http_outcome.

Definition seed_state (seed_coaches : list seed) (requests : nat) : state :=
  State
    (foldl (λ d sc,
              let coach_id := make_id (seed_name sc) in
              dict_set d coach_id
                (Coach coach_id (seed_name sc) (seed_team sc) true))
           [] seed_coaches)
    []
    ∅
    []
    (map (λ sc, (seed_name sc, seed_page_title sc, seed_team sc, true))
         seed_coaches)
    ∅
    (foldl (λ m sc, <[seed_page_title sc := 0%nat]> m) ∅ seed_coaches)
    0
    requests.

(** The body of the loop over [tree_members], for one member. *)
Definition add_member (max_depth : nat) (coach_id : str) (current_depth : nat)
    (st : state) (m : tree_member) : state :=
  let '(linked_name, linked_page, relationship, context) := m in
  let linked_id := make_id linked_name in
  let '(source_id, target_id) :=
    if decide (relationship = mentor)
    then (linked_id, coach_id) else (coach_id, linked_id) in
  let years := extract_years_from_context context in
  let conn_key := (source_id, target_id) in
  let reverse_key := (target_id, source_id) in
  let fresh :=
    bool_decide (conn_key ∉ connection_set st)
    && bool_decide (reverse_key ∉ connection_set st) in
  let connection_set' :=
    if fresh then {[conn_key]} ∪ connection_set st else connection_set st in
  let conn_list' :=
    if fresh
    then conn_list st ++
         [Connection source_id target_id coaching_tree years
            (if nonempty context then Some (take 300 context) else None)]
    else conn_list st in
  let coaches_data' :=
    if dict_has (coaches_data st) linked_id then coaches_data st
    else dict_set (coaches_data st) linked_id
           (Coach linked_id linked_name None false) in
  let enqueue :=
    bool_decide (linked_page ∉ visited st)
    && (current_depth + 1 <=? max_depth)%nat in
  State coaches_data' conn_list' (visited st) (career_data st)
    (if enqueue then queue st ++ [(linked_name, linked_page, None, false)]
     else queue st)
    connection_set'
    (if enqueue then <[linked_page := (current_depth + 1)%nat]> (depth_map st)
     else depth_map st)
    (total_scraped st) (requests st).

(** What one turn of the loop did. *)
Inductive event :=
| AlreadyVisited (page_title : str)
| NoHtml (page_title : str)
| Scraped (page_title : str).

Inductive step_result :=
| Exit                                   (* the loop condition is false *)
| Continue (ev : event) (st' : state)
| Abort (e : exn).                       (* an exception leaves the function *)

(** One turn of [while queue and total_scraped < max_pages]. *)
Definition step (max_depth max_pages : nat) (net : network) (st : state)
  : step_result :=
  match queue st with
  | [] => Exit
  | (name, page_title, team, is_current) :: queue' =>
      if negb (total_scraped st <? max_pages)%nat then Exit
      else if bool_decide (page_title ∈ visited st)
      then Continue (AlreadyVisited page_title)
             (State (coaches_data st) (conn_list st) (visited st)
                (career_data st) queue' (connection_set st) (depth_map st)
                (total_scraped st) (requests st))
      else
        let visited' := {[page_title]} ∪ visited st in
        let current_depth := default 0%nat (depth_map st !! page_title) in
        let coach_id := make_id name in
        let html := fetch_page_html (net (requests st) page_title) in
        match html with
        | Some ((_ :: _) as html) =>
            let soup := BeautifulSoup html in
            let total_scraped' := S (total_scraped st) in
            let coaches_data' :=
              if dict_has (coaches_data st) coach_id then coaches_data st
              else dict_set (coaches_data st) coach_id
                     (Coach coach_id name team is_current) in
            match parse_career_history soup with
            | Raise e => Abort e
            | Ok career =>
                let career_data' :=
                  match career with
                  | [] => career_data st
                  | _ => dict_set (career_data st) coach_id career
                  end in
                let tree_members := parse_coaching_tree_section html name in
                Continue (Scraped page_title)
                  (foldl (add_member max_depth coach_id current_depth)
                     (State coaches_data' (conn_list st) visited' career_data'
                        queue' (connection_set st) (depth_map st)
                        total_scraped' (S (requests st)))
                     tree_members)
            end
        | _ =>
            Continue (NoHtml page_title)
              (State (coaches_data st) (conn_list st) visited'
                 (career_data st) queue' (connection_set st) (depth_map st)
                 (total_scraped st) (S (requests st)))
        end
  end.

(** The loop, with the events of its turns; [None] when the fuel ran out
    before the loop ended. *)
Fixpoint loop (max_depth max_pages : nat) (net : network) (fuel : nat)
    (st : state) : list event * option (result state) :=
  match fuel with
  | O => ([], None)
  | S fuel' =>
      match step max_depth max_pages net st with
      | Exit => ([], Some (Ok st))
      | Abort e => ([], Some (Raise e))
      | Continue ev st' =>
          let '(evs, r) := loop max_depth max_pages net fuel' st' in
          (ev :: evs, r)
      end
  end.

(** The innermost body of the cross-reference of career histories. *)
Definition overlap (cid_a cid_b : str) (ca cb : career_entry)
    (acc : list connection * gset (str * str))
  : list connection * gset (str * str) :=
  let '(connections, connection_set) := acc in
  if nonempty (team ca) && nonempty (team cb)
     && str_eqb (team ca) (team cb)
     && negb (str_eqb (team ca) (py "Unknown"))
     && negb (year_start ca =? 0)%Z && negb (year_start cb =? 0)%Z
     && negb (year_end ca =? 0)%Z && negb (year_end cb =? 0)%Z
  then
    let overlap_start := Z.max (year_start ca) (year_start cb) in
    let overlap_end := Z.min (year_end ca) (year_end cb) in
    if (overlap_start <=? overlap_end)%Z
    then
      let conn_key := (cid_a, cid_b) in
      let reverse_key := (cid_b, cid_a) in
      if bool_decide (conn_key ∉ connection_set)
         && bool_decide (reverse_key ∉ connection_set)
      then
        let span := str_of_int overlap_start ++ py "-"
                    ++ str_of_int overlap_end in
        (connections ++
           [Connection cid_a cid_b career_overlap (Some span)
              (Some (py "Both at " ++ team ca ++ py " (" ++ span ++ py ")"))],
         {[conn_key]} ∪ connection_set)
      else acc
    else acc
  else acc.

(** The four nested loops over the pairs of coaches with a career. *)
Fixpoint cross_reference (career_data : dict (list career_entry))
    (acc : list connection * gset (str * str))
  : list connection * gset (str * str) :=
  match career_data with
  | [] => acc
  | (cid_a, career_a) :: others =>
      cross_reference others
        (foldl (λ acc '(cid_b, career_b),
                  foldl (λ acc ca,
                           foldl (λ acc cb, overlap cid_a cid_b ca cb acc)
                                 acc career_b)
                        acc career_a)
               acc others)
  end.

(** The code after the loop: the overlaps, the filter to valid coaches and
    the coaches that are kept. *)
Definition finish (st : state) : dataset :=
  let connections :=
    (cross_reference (career_data st) (conn_list st, connection_set st)).1 in
  let connections :=
    List.filter (λ c, dict_has (coaches_data st) (source c)
                      && dict_has (coaches_data st) (target c)) connections in
  let connected_ids : gset str :=
    list_to_set (flat_map (λ c, [source c; target c]) connections) in
  let final_coaches :=
    map snd
      (List.filter (λ '(cid, cdata),
                      bool_decide (cid ∈ connected_ids) || is_current_hc cdata)
         (coaches_data st)) in
  Dataset final_coaches connections TEAM_COLORS.

(** The crawl from the seeds [get_current_head_coaches] returned, with the
    depth and page ceilings as parameters. *)
Definition crawl (max_depth max_pages : nat) (net : network)
    (seed_coaches : list seed) (requests : nat) (fuel : nat)
  : list event * option (result dataset) :=
  let '(evs, r) :=
    loop max_depth max_pages net fuel (seed_state seed_coaches requests) in
  (evs, (λ r, st ← r; Ok (finish st)) <$> r).

(** Main scraping loop, with the ceilings of the source. *)
Definition scrape_coaching_trees := crawl 5 300.

End Crawl.
End Crawl.

(* ===================================================================== *)
(** * patch_klint_kubiak.py                                               *)
(* ===================================================================== *)

Module PatchKlint.
Section PatchKlint.
Context `{PyEnv}.

Definition SKIP_LINK_WORDS : list str :=
  [ py "coach"; py "football"; py "league"; py "team"; py "bowl";
    py "season"; py "stadium"; py "university"; py "college"; py "school";
    py "conference"; py "national"; py "american"; py "pro bowl";
    py "super bowl"; py "nfl"; py "afl"; py "afc"; py "nfc"; py "division";
    py "playoff"; py "draft"; py "hall of fame" ].

(** No [try] here: whatever the body raises leaves the function. *)
Definition fetch_page_html (o : http_outcome) : result (option str) :=
  fetch_body o.

Definition is_person_link (link_text : str) : bool :=
  if (length (split link_text) <? 2)%nat then false
  else
    let lower_ := lower link_text in
    if existsb (λ skip, contains skip lower_) SKIP_LINK_WORDS then false
    else match re_search DIGIT link_text with
         | Some _ => false
         | None => true
         end.

Definition paragraph_context (p_text : str) (current_context : relationship)
  : relationship :=
  if contains (py "served under") p_text
     || contains (py "worked under") p_text
  then mentor
  else if contains (py "assistant") p_text
          && (contains (py "head coach") p_text
              || contains (py "become") p_text)
  then protege
  else if contains (py "prot" ++ [E_ACUTE] ++ py "g" ++ [E_ACUTE]) p_text
          || contains (py "protege") p_text
  then protege
  else current_context.

Fixpoint first_person_link (links : list node) : option (str * str) :=
  match links with
  | [] => None
  | link :: links' =>
      match extract_link_title link with
      | Some ((_ :: _) as title) =>
          let link_text := get_text link in
          if is_person_link link_text then Some (link_text, title)
          else first_person_link links'
      | _ => first_person_link links'
      end
  end.

Definition list_item (current_context : relationship) (li : node)
  : option tree_member :=
  let li_text := get_text li in
  match first_person_link (find_all [py "a"] li) with
  | None => None
  | Some (link_text, title) =>
      let li_lower := lower li_text in
      let relationship :=
        if contains (py "served under") li_lower
           || contains (py "worked under") li_lower
        then mentor else current_context in
      Some (link_text, title, relationship, take 200 li_text)
  end.

Fixpoint scan_section (elems : list node) (current_context : relationship)
    (results : list tree_member) : list tree_member :=
  match elems with
  | [] => results
  | elem :: elems' =>
      if has_name [py "p"] elem
      then
        let p_text := lower (get_text elem) in
        scan_section elems' (paragraph_context p_text current_context) results
      else
        let list_items := find_all [py "li"] elem in
        scan_section elems' current_context
          (results ++ omap (list_item current_context) list_items)
  end.

Definition parse_section_soup (section_soup : node) : list tree_member :=
  scan_section (find_all [py "p"; py "ul"; py "ol"] section_soup) protege [].

Definition parse_coaching_tree_section (html coach_name : str)
  : list tree_member :=
  match find_section html with
  | None => []
  | Some section_soup => parse_section_soup section_soup
  end.

Record career_entry := CareerEntry {
  team : str;
  year_start : Z;
  year_end : Z;
}.

Definition cell_entries (text : str) : result (list career_entry) :=
  mapM (λ '(ys, ye),
          ye_int ← (if str_eqb (lower ye) (py "present")
                    then Ok PRESENT_YEAR else int ye);
          let team_text := team_text text in
          ys_int ← int ys;
          Ok (CareerEntry (or_unknown team_text) ys_int ye_int))
       (year_matches text).

Definition row_entries (row : node) : result (list career_entry) :=
  ess ← mapM (λ cell, cell_entries (get_text cell)) (find_all [py "td"] row);
  Ok (concat ess).

Definition EXIT_HEADERS : list str :=
  [ py "record"; py "playing career"; py "administrative"; py "executive";
    py "front office"; py "personal info" ].

Fixpoint scan_rows (rows : list node) (in_coaching : bool)
  : result (list career_entry) :=
  match rows with
  | [] => Ok []
  | row :: rows' =>
      let cells (in_coaching : bool) :=
        if in_coaching
        then es ← row_entries row;
             rest ← scan_rows rows' in_coaching;
             Ok (es ++ rest)
        else scan_rows rows' in_coaching in
      match find (py "th") row with
      | Some header =>
          let ht := lower (get_text header) in
          if contains (py "coaching career") ht
             || contains (py "career history") ht
          then scan_rows rows' true
          else if in_coaching
                  && existsb (λ kw, contains kw ht) EXIT_HEADERS
          then scan_rows rows' false
          else cells in_coaching
      | None => cells in_coaching
      end
  end.

(** Extract coaching career entries from the infobox table. *)
Definition parse_infobox_career (html : str) : result (list career_entry) :=
  let soup := BeautifulSoup html in
  match find_class (py "table") (py "infobox") soup with
  | None => Ok []
  | Some infobox => scan_rows (find_all [py "tr"] infobox) false
  end.

Definition klint_id : str := py "klint-kubiak".

(** The variables the two insertion loops of [main] update. *)
Record merge := Merge {
  m_coaches : list coach;                 (* [data["coaches"]] *)
  new_connections : list connection;
  existing_ids : gset str;
  existing_conns : gset (str * str);
}.

(** The body of the loop over [tree_members]. *)
Definition add_member (st : merge) (m : tree_member) : merge :=
  let '(linked_name, linked_page, relationship, context) := m in
  let linked_id := make_id linked_name in
  let '(src, tgt) :=
    if decide (relationship = mentor)
    then (linked_id, klint_id) else (klint_id, linked_id) in
  let years := extract_years_from_context context in
  let key := (src, tgt) in
  let rev := (tgt, src) in
  let fresh :=
    bool_decide (key ∉ existing_conns st)
    && bool_decide (rev ∉ existing_conns st) in
  let absent := bool_decide (linked_id ∉ existing_ids st) in
  Merge
    (if absent
     then m_coaches st ++ [Coach linked_id linked_name None false]
     else m_coaches st)
    (if fresh
     then new_connections st ++
          [Connection src tgt coaching_tree years
             (if nonempty context then Some (take 300 context) else None)]
     else new_connections st)
    (if absent then {[linked_id]} ∪ existing_ids st else existing_ids st)
    (if fresh then {[key]} ∪ existing_conns st else existing_conns st).

(** [(src, tgt, ctype, years, ctx)] *)
Definition manual : list (str * str * conn_type * option str * str) :=
  [ (py "gary-kubiak", klint_id, coaching_tree, None,
     py "Son and coaching protege of Gary Kubiak") ].

(** The body of the loop over [manual]. *)
Definition add_manual (st : merge)
    (m : str * str * conn_type * option str * str) : merge :=
  let '(src, tgt, ctype, years, ctx) := m in
  let key := (src, tgt) in
  let rev := (tgt, src) in
  if bool_decide (key ∉ existing_conns st)
     && bool_decide (rev ∉ existing_conns st)
  then Merge (m_coaches st)
         (new_connections st ++ [Connection src tgt ctype years (Some ctx)])
         (existing_ids st)
         ({[key]} ∪ existing_conns st)
  else st.

(** [main]: from the dataset read from the file and the outcome of the
    one request, the dataset written back, or the exception that ends the
    run before anything is written. *)
Definition main (data : dataset) (o : http_outcome) : result dataset :=
  let existing_ids : gset str := list_to_set (map coach_id (coaches data)) in
  let existing_conns : gset (str * str) :=
    list_to_set (map (λ c, (source c, target c)) (connections data)) in
  (* Remove any stale entry if re-running *)
  let coaches1 :=
    List.filter (λ c, negb (str_eqb (coach_id c) klint_id)) (coaches data) in
  let connections1 :=
    List.filter (λ c, negb (str_eqb (source c) klint_id)
                      && negb (str_eqb (target c) klint_id))
                (connections data) in
  (* Add Klint Kubiak as current HC *)
  let coaches2 :=
    coaches1 ++
    [Coach klint_id (py "Klint Kubiak") (Some (py "Las Vegas Raiders")) true] in
  html ← fetch_page_html o;
  let st := Merge coaches2 [] existing_ids existing_conns in
  st ← match html with
       | Some ((_ :: _) as html) =>
           let tree_members :=
             parse_coaching_tree_section html (py "Klint Kubiak") in
           let st := foldl add_member st tree_members in
           career ← parse_infobox_career html;
           Ok st
       | _ => Ok st
       end;
  let st := foldl add_manual st manual in
  Ok (Dataset (m_coaches st) (connections1 ++ new_connections st)
        (team_colors data)).

End PatchKlint.
End PatchKlint.

(* ===================================================================== *)
(** * patch_missing_connections.py                                        *)
(* ===================================================================== *)

Module PatchMissing.

(** New coach entries (only added if their ID doesn't already exist). *)
Definition NEW_COACHES : list coach :=
  [ Coach (py "greg-schiano") (py "Greg Schiano") None false;
    Coach (py "marty-schottenheimer") (py "Marty Schottenheimer") None false;
    Coach (py "mike-ditka") (py "Mike Ditka") None false;
    Coach (py "bill-callahan") (py "Bill Callahan") None false ].

(** Missing connections: [(source/mentor, target/protege, context)]. *)
Definition NEW_CONNECTIONS : list (str * str * str) :=
  [ (py "joe-philbin", py "ben-johnson",
     py "Worked under Joe Philbin with the Dolphins");
    (py "matt-patricia", py "ben-johnson",
     py "Worked under Matt Patricia with the Lions");
    (py "dan-campbell", py "ben-johnson",
     py "Worked under Dan Campbell with the Lions");
    (py "adam-gase", py "ben-johnson",
     py "Worked under Adam Gase with the Dolphins");
    (py "matt-lafleur", py "jeff-hafley", py "Worked together in the NFL");
    (py "greg-schiano", py "jeff-hafley", py "Worked under Greg Schiano");
    (py "mike-ditka", py "jim-harbaugh",
     py "Jim Harbaugh played for Mike Ditka with the Chicago Bears (1987"
       ++ [EN_DASH] ++ py "1993)");
    (py "ted-marchibroda", py "jim-harbaugh",
     py "Jim Harbaugh played for Ted Marchibroda with the Indianapolis Colts (1994"
       ++ [EN_DASH] ++ py "1997)");
    (py "brian-billick", py "jim-harbaugh",
     py "Jim Harbaugh played for Brian Billick with the Baltimore Ravens (1998)");
    (py "george-seifert", py "jim-harbaugh",
     py "Jim Harbaugh played for George Seifert with the Carolina Panthers (2001)");
    (py "bill-callahan", py "jim-harbaugh",
     py "Jim Harbaugh coached under Bill Callahan with the Oakland Raiders (2002"
       ++ [EN_DASH] ++ py "2003)");
    (py "mike-zimmer", py "kevin-stefanski",
     py "Worked under Mike Zimmer with the Vikings");
    (py "gary-kubiak", py "kevin-stefanski",
     py "Worked under Gary Kubiak with the Vikings");
    (py "kyle-shanahan", py "matt-lafleur", py "Worked under Kyle Shanahan");
    (py "sean-mcvay", py "matt-lafleur",
     py "Worked alongside Sean McVay with the Rams");
    (py "kyle-shanahan", py "mike-lafleur",
     py "Worked under Kyle Shanahan with the 49ers");
    (py "bill-walsh", py "mike-mccarthy", py "Worked under Bill Walsh");
    (py "marty-schottenheimer", py "mike-mccarthy",
     py "Worked under Marty Schottenheimer with the Chiefs") ].

(** The lines the two loops print. *)
Inductive message :=
| CoachAdded (c : coach)
| CoachExists (c : coach)
| ConnectionExists (source target : str)
| WarnSourceNotFound (source : str)
| WarnTargetNotFound (target : str)
| ConnectionAdded (source target : str).

(** The variables the two loops of [main] update, and the console. *)
Record merge := Merge {
  m_coaches : list coach;                 (* [data["coaches"]] *)
  m_connections : list connection;        (* [data["connections"]] *)
  existing_ids : gset str;
  existing_conns : gset (str * str);
  console : list message;
}.

(** 2. Add new coach entries if missing. *)
Definition add_coach (st : merge) (c : coach) : merge :=
  if bool_decide (coach_id c ∉ existing_ids st)
  then Merge (m_coaches st ++ [c]) (m_connections st)
         ({[coach_id c]} ∪ existing_ids st) (existing_conns st)
         (console st ++ [CoachAdded c])
  else Merge (m_coaches st) (m_connections st) (existing_ids st)
         (existing_conns st) (console st ++ [CoachExists c]).

Definition say (st : merge) (msg : message) : merge :=
  Merge (m_coaches st) (m_connections st) (existing_ids st)
    (existing_conns st) (console st ++ [msg]).

(** 3. Add new connections (skip duplicates). *)
Definition add_connection (st : merge) (c : str * str * str) : merge :=
  let '(source, target, context) := c in
  let key := (source, target) in
  let rev := (target, source) in
  if bool_decide (key ∈ existing_conns st)
     || bool_decide (rev ∈ existing_conns st)
  then say st (ConnectionExists source target)
  else if bool_decide (source ∉ existing_ids st)
  then say st (WarnSourceNotFound source)
  else if bool_decide (target ∉ existing_ids st)
  then say st (WarnTargetNotFound target)
  else Merge (m_coaches st)
         (m_connections st ++
            [Connection source target coaching_tree None (Some context)])
         (existing_ids st)
         ({[key]} ∪ existing_conns st)
         (console st ++ [ConnectionAdded source target]).

(** The merge of the two tables into a dataset. *)
Definition merge_tables (new_coaches : list coach)
    (new_connections : list (str * str * str)) (data : dataset) : merge :=
  let existing_ids : gset str := list_to_set (map coach_id (coaches data)) in
  let existing_conns : gset (str * str) :=
    list_to_set (map (λ c, (source c, target c)) (connections data)) in
  let st := Merge (coaches data) (connections data) existing_ids
              existing_conns [] in
  let st := foldl add_coach st new_coaches in
  foldl add_connection st new_connections.

(** [main], up to the file it writes (the depth analysis that follows only
    prints) and what it printed on the way. *)
Definition main (data : dataset) : dataset * list message :=
  let st := merge_tables NEW_COACHES NEW_CONNECTIONS data in
  (Dataset (m_coaches st) (m_connections st) (team_colors data), console st).

End PatchMissing.

(* ===================================================================== *)
(** * An environment to evaluate in                                       *)
(* ===================================================================== *)

(** The restriction of the tables to Basic Latin. *)
Definition latin_decimal (c : N) : option Z :=
  if ((48 <=? c) && (c <=? 57))%N then Some (Z.of_N c - 48)%Z else None.

(** Basic Latin tables, with the document parser left as a parameter. *)
Definition latin_env (parse : str → node) : PyEnv.
Proof.
  refine {| decimal := latin_decimal;
            lower := map ascii_lower;
            unquote := λ s, s;
            BeautifulSoup := parse |}.
  - done.
  - intros c d. unfold latin_decimal.
    destruct ((48 <=? c) && (c <=? 57))%N eqn:E; [|done].
    intros [= <-]. apply andb_true_iff in E as [?%N.leb_le ?%N.leb_le]. lia.
  - intros c Hs. unfold latin_decimal.
    destruct ((48 <=? c) && (c <=? 57))%N eqn:E; [|done].
    exfalso. apply andb_true_iff in E as [?%N.leb_le ?%N.leb_le].
    unfold isspace in Hs.
    repeat (apply orb_true_iff in Hs as [Hs|Hs]);
      repeat (apply andb_true_iff in Hs as [Hs ?]);
      repeat match goal with
             | H : (_ <=? _)%N = true |- _ => apply N.leb_le in H
             | H : (_ =? _)%N = true |- _ => apply N.eqb_eq in H
             end; lia.
  - done.
  - intros s Hs. induction Hs as [|c s [d Hc] _ IH]; [done|].
    simpl. rewrite IH. f_equal. unfold latin_decimal in Hc. unfold ascii_lower.
    destruct ((48 <=? c) && (c <=? 57))%N eqn:E; [|done].
    apply andb_true_iff in E as [?%N.leb_le ?%N.leb_le].
    destruct ((65 <=? c) && (c <=? 90))%N eqn:E'; [|done].
    apply andb_true_iff in E' as [?%N.leb_le ?%N.leb_le]. lia.
Defined.

(** An environment whose parser finds nothing, for text-only examples. *)
Definition latin : PyEnv := latin_env (λ _, Tag (py "[document]") [] []).

(* ===================================================================== *)
(** * Vocabulary of the properties                                        *)
(* ===================================================================== *)

(** The record the Klint Kubiak patch inserts for its coach. *)
Definition klint_coach : coach :=
  Coach PatchKlint.klint_id (py "Klint Kubiak")
    (Some (py "Las Vegas Raiders")) true.

(** The connection of its manual list. *)
Definition gary_klint : connection :=
  Connection (py "gary-kubiak") PatchKlint.klint_id coaching_tree None
    (Some (py "Son and coaching protege of Gary Kubiak")).

(** A response without page text: [fetch_page_html] returns [None]. *)
Definition no_page : http_outcome := Response 200 NoParseText.

Definition empty_dataset : dataset := Dataset [] [] [].

(** The ids of the coach records of a dataset. *)
Definition coach_ids (d : dataset) : list str := map coach_id (coaches d).


(** Two connections join the same unordered pair of ids. *)
Definition same_pair (a b : connection) : Prop :=
  (source a = source b ∧ target a = target b)
  ∨ (source a = target b ∧ target a = source b).

(** Each unordered pair [{source, target}] appears at most once. *)
Definition unique_pairs (l : list connection) : Prop :=
  ∀ i j a b, l !! i = Some a → l !! j = Some b → same_pair a b → i = j.

(** The same, by recursion on the list. *)
Inductive pairwise_apart : list connection → Prop :=
| apart_nil : pairwise_apart []
| apart_cons a l :
    Forall (λ b, ¬ same_pair a b) l → pairwise_apart l →
    pairwise_apart (a :: l).

(** The pair a script records in its set for a connection. *)
Definition pair_of (c : connection) : str * str := (source c, target c).

(** The bookkeeping all three scripts share: the list has no repeated
    unordered pair and the set holds the pair of each of its members. *)
Definition guarded (l : list connection) (S : gset (str * str)) : Prop :=
  pairwise_apart l ∧ ∀ c, c ∈ l → pair_of c ∈ S.




(** The turns of the crawl that fetched and processed a page. *)
Definition is_scraped (ev : Crawl.event) : bool :=
  match ev with
  | Crawl.Scraped _ => true
  | _ => false
  end.

Definition pages_scraped (evs : list Crawl.event) : nat :=
  length (List.filter is_scraped evs).


(** The bookkeeping of the crawl. *)
Definition crawl_guarded (st : Crawl.state) : Prop :=
  guarded (Crawl.conn_list st) (Crawl.connection_set st).

(** ** A small site to run the scripts on *)

(** Every page of the site has the same document: a coaching tree that
    names Bill Walsh as a mentor, and an infobox with one coaching job. *)
Definition toy_document : node :=
  Tag (py "[document]") []
    [ Tag (py "p") [] [Text (py "He served under:")];
      Tag (py "ul") []
        [ Tag (py "li") []
            [ Tag (py "a") [(py "href", py "/wiki/Bill_Walsh")]
                [Text (py "Bill Walsh")];
              Text (py " (1992-1998)") ] ];
      Tag (py "table") [(py "class", py "infobox vcard")]
        [ Tag (py "tr") [] [Tag (py "th") [] [Text (py "Coaching career")]];
          Tag (py "tr") []
            [Tag (py "td") [] [Text (py "Green Bay Packers (1992-1998)")]] ] ].

Definition toy_html : str :=
  py "<h2 id=" ++ [34%N] ++ py "Coaching_tree" ++ [34%N] ++ py ">Coaching tree</h2>".

Definition toy_env : PyEnv := latin_env (λ _, toy_document).

Definition toy_net : Crawl.network := λ _ _, Response 200 (PageText toy_html).

Definition toy_seeds : list Crawl.seed :=
  [Crawl.Seed (py "Andy Reid") (py "Andy Reid") (Some (py "Kansas City Chiefs"))].

(** The crawl of that site from the seed, and the dataset it returns. *)
Definition toy_run : list Crawl.event * option (result dataset) :=
  Eval vm_compute in @Crawl.crawl toy_env 5 300 toy_net toy_seeds 0 10.

Definition toy_dataset : dataset :=
  Eval vm_compute in
    match toy_run.2 with
    | Some (Ok d) => d
    | _ => empty_dataset
    end.

(** The same crawl under a ceiling of one page. *)
Definition toy_run_1 : list Crawl.event * option (result dataset) :=
  Eval vm_compute in @Crawl.crawl toy_env 5 1 toy_net toy_seeds 0 10.

(** The Klint Kubiak patch on a dataset that holds the manual connection. *)
Definition toy_patched : dataset :=
  Eval vm_compute in
    match @PatchKlint.main toy_env (Dataset [] [gary_klint] []) (toy_net 0%nat [])
    with
    | Ok d => d
    | Raise _ => empty_dataset
    end.

(** ** The year patterns, read directly *)

(** Four decimal digits at the start of a text. *)
Definition digits4_prefix `{PyEnv} (s : str) : option (str * str) :=
  match s with
  | a :: b :: c :: d :: rest =>
      if digit a && digit b && digit c && digit d
      then Some ([a; b; c; d], rest) else None
  | _ => None
  end.

(** A word at the start of a text, in the letter cases [re.IGNORECASE]
    accepts. *)
Fixpoint word_prefix_i (w s : str) : option (str * str) :=
  match w, s with
  | [], _ => Some ([], s)
  | c :: w', x :: s' =>
      if lit_i c x
      then match word_prefix_i w' s' with
           | Some (m, rest) => Some (x :: m, rest)
           | None => None
           end
      else None
  | _ :: _, [] => None
  end.

(** A year range at the start of a text: its two groups and the rest. *)
Definition range_prefix `{PyEnv} (s : str) : option (str * str * str) :=
  match digits4_prefix s with
  | None => None
  | Some (g1, s1) =>
      match lstrip s1 with
      | d :: s3 =>
          if one_of [45; EN_DASH]%N d
          then match digits4_prefix (lstrip s3) with
               | Some (g2, rest) => Some (g1, g2, rest)
               | None =>
                   match word_prefix_i (py "present") (lstrip s3) with
                   | Some (g2, rest) => Some (g1, g2, rest)
                   | None => None
                   end
               end
          else None
      | [] => None
      end
  end.

(** ** The year patterns, as shapes of text *)

(** Four decimal digits. *)
Definition year4 `{PyEnv} (g : str) : Prop :=
  length g = 4 ∧ Forall (λ c, digit c = true) g.

Definition spaces (ws : str) : Prop := Forall (λ c, isspace c = true) ws.

(** A hyphen or an en dash. *)
Definition is_dash (d : N) : Prop := d = 45%N ∨ d = EN_DASH.

(** What [re.IGNORECASE] lets stand for a lower-case letter of [present]:
    the letter, its capital and, for [s], the long s U+017F. *)
Definition same_letter (c x : N) : Prop :=
  x = c ∨ x = (c - 32)%N ∨ (c = 115%N ∧ x = LONG_S).

Definition spells_present (g : str) : Prop :=
  Forall2 same_letter (py "present") g.

(** The word in ASCII letters of either case. *)
Definition spells_present_ascii (g : str) : Prop :=
  Forall2 (λ c x, x = c ∨ x = (c - 32)%N) (py "present") g.

(** [s] starts with a year range: four digits, optional whitespace, a
    dash, optional whitespace, and four digits or the word [present]. *)
Definition range_at_start `{PyEnv} (s g1 g2 rest : str) : Prop :=
  ∃ ws1 d ws2,
    s = g1 ++ ws1 ++ [d] ++ ws2 ++ g2 ++ rest
    ∧ year4 g1 ∧ spaces ws1 ∧ is_dash d ∧ spaces ws2
    ∧ (year4 g2 ∨ spells_present g2).

(** [s] starts with a parenthesised year. *)
Definition paren_year_at_start `{PyEnv} (s g rest : str) : Prop :=
  s = [40%N] ++ g ++ [41%N] ++ rest ∧ year4 g.

(** The first occurrence of a shape in a text, and its absence. *)
Definition first_at {A} (P : str → A → Prop) (text : str) (a : A) : Prop :=
  ∃ pre suf,
    text = pre ++ suf ∧ P suf a
    ∧ ∀ pre1 suf1 a1, text = pre1 ++ suf1 → length pre1 < length pre →
        ¬ P suf1 a1.

Definition nowhere {A} (P : str → A → Prop) (text : str) : Prop :=
  ∀ pre suf a, text = pre ++ suf → ¬ P suf a.

(** The two shapes, with what they capture. *)
Definition range_shape `{PyEnv} (s : str) (g : str * str) : Prop :=
  ∃ rest, range_at_start s g.1 g.2 rest.

Definition paren_year_shape `{PyEnv} (s : str) (g : str) : Prop :=
  ∃ rest, paren_year_at_start s g rest.

(** The years of a connection were read off the text its context is the
    start of. *)
Definition years_from_context `{PyEnv} (c : connection) : Prop :=
  ∃ context_text,
    years c = extract_years_from_context context_text
    ∧ context c = (if nonempty context_text
                   then Some (take 300 context_text) else None).

(** A pattern that never matches the empty string. *)
Definition consuming (r : regex) : Prop :=
  ∀ suf caps rest, match_here r suf = Some (caps, rest) →
    ∃ c m, suf = c :: m ++ rest.

(** ** The cells of the infobox *)

(** [s] starts with four digits. *)
Definition year_shape `{PyEnv} (s : str) (g : str) : Prop :=
  ∃ rest, s = g ++ rest ∧ year4 g.

(** The number a string of decimal digits denotes. *)
Definition year_value `{PyEnv} (g : str) : Z :=
  foldl (λ a c, (10 * a + default 0 (decimal c))%Z) 0%Z g.

(** The text without its parenthesis characters. *)
Definition remove_parens (s : str) : str :=
  List.filter (λ c, negb (one_of [40; 41]%N c)) s.

(** The successive year ranges of a text, left to right: each is the first
    one in what the one before left. *)
Inductive ranges_of `{PyEnv} : str → list (str * str) → Prop :=
| ranges_none text : nowhere range_shape text → ranges_of text []
| ranges_more text pre suf g1 g2 rest gs :
    text = pre ++ suf →
    range_at_start suf g1 g2 rest →
    (∀ pre1 suf1 a, text = pre1 ++ suf1 → length pre1 < length pre →
       ¬ range_shape suf1 a) →
    ranges_of rest gs →
    ranges_of text ((g1, g2) :: gs).

(** The text before the first four digits of a cell. *)
Definition before_first_year `{PyEnv} (text pre : str) : Prop :=
  ∃ suf g, text = pre ++ suf ∧ year_shape suf g
    ∧ ∀ pre1 suf1 a, text = pre1 ++ suf1 → length pre1 < length pre →
        ¬ year_shape suf1 a.

(** The end year a second group stands for: the year of four digits, the
    sentinel for the word. *)
Definition end_year `{PyEnv} (g2 : str) : Z :=
  if (length g2 =? 4)%nat then year_value g2 else PRESENT_YEAR.

(** The team name the specification describes: the cell text without the
    matched year text and without parentheses, trimmed. *)
Definition claimed_team (text year_text : str) : str :=
  strip (remove_parens (replace year_text [] text)).









(** The loop of the section parsers, over the paragraph rule and the
    treatment of a list item. *)
Fixpoint scan_with `{PyEnv}
    (paragraph : str → relationship → relationship)
    (item : relationship → node → option tree_member)
    (elems : list node) (current_context : relationship)
    (results : list tree_member) : list tree_member :=
  match elems with
  | [] => results
  | elem :: elems' =>
      if has_name [py "p"] elem
      then scan_with paragraph item elems'
             (paragraph (lower (get_text elem)) current_context) results
      else scan_with paragraph item elems' current_context
             (results ++ omap (item current_context)
                           (find_all [py "li"] elem))
  end.

(** A page whose coaching tree lists Buster Ramsey and whose infobox has an
    honours block after the coaching career. *)
Definition drift_document : node :=
  Tag (py "[document]") []
    [ Tag (py "ul") []
        [ Tag (py "li") []
            [ Tag (py "a") [(py "href", py "/wiki/Buster_Ramsey")]
                [Text (py "Buster Ramsey")] ] ];
      Tag (py "table") [(py "class", py "infobox vcard")]
        [ Tag (py "tr") [] [Tag (py "th") [] [Text (py "Coaching career")]];
          Tag (py "tr") []
            [Tag (py "td") [] [Text (py "Buffalo Bills (1960-1961)")]];
          Tag (py "tr") [] [Tag (py "th") [] [Text (py "Awards and honors")]];
          Tag (py "tr") []
            [Tag (py "td") [] [Text (py "Pro Bowl (1954)")]] ] ].

Definition drift_env : PyEnv := latin_env (λ _, drift_document).

(** The context classifier in the spec's words: the update of the current
    interpretation by the text of one paragraph. *)
Definition interpretation (text : str) (state : relationship) : relationship :=
  if contains (py "served under") text
     || contains (py "has served under") text
     || contains (py "worked under") text
  then mentor
  else if contains (py "assistant") text
          && (contains (py "head coach") text || contains (py "become") text)
  then protege
  else if contains (py "prot" ++ [E_ACUTE] ++ py "g" ++ [E_ACUTE]) text
          || contains (py "protege") text
  then protege
  else state.

(** The paragraph-level state after the elements [before], from the initial
    [protege]. *)
Definition paragraph_state `{PyEnv} (before : list node) : relationship :=
  foldl (λ state elem,
           if has_name [py "p"] elem
           then interpretation (lower (get_text elem)) state
           else state)
        protege before.

(** The list item's own text says [served under] or [worked under]. *)
Definition local_override `{PyEnv} (li : node) : bool :=
  contains (py "served under") (lower (get_text li))
  || contains (py "worked under") (lower (get_text li)).

Definition role_of (m : tree_member) : relationship := m.1.2.

(** [li] is a list item of a [ul] or [ol] element of the section that
    comes after the elements [before]. *)
Definition item_after (section_soup : node) (before : list node) (li : node)
  : Prop :=
  ∃ elem after,
    find_all [py "p"; py "ul"; py "ol"] section_soup = before ++ elem :: after
    ∧ has_name [py "p"] elem = false
    ∧ li ∈ find_all [py "li"] elem.

(** The section starts with the paragraph [text] and has no other. *)
Definition only_paragraph `{PyEnv} (section_soup : node) (text : str) : Prop :=
  ∃ p lists,
    find_all [py "p"; py "ul"; py "ol"] section_soup = p :: lists
    ∧ has_name [py "p"] p = true
    ∧ get_text p = text
    ∧ Forall (λ elem, has_name [py "p"] elem = false) lists.

(** The section of the spec's example: one paragraph, then a list of
    names. *)
Definition belichick_paragraph : node :=
  Tag (py "p") [] [Text (py "He later served under Bill Belichick.")].

Definition belichick_list : node :=
  Tag (py "ul") []
    [ Tag (py "li") []
        [ Tag (py "a") [(py "href", py "/wiki/Josh_McDaniels")]
            [Text (py "Josh McDaniels")] ];
      Tag (py "li") []
        [ Tag (py "a") [(py "href", py "/wiki/Brian_Flores")]
            [Text (py "Brian Flores")] ] ].

Definition belichick_section : node :=
  Tag (py "[document]") [] [belichick_paragraph; belichick_list].








(** The states the crawl goes through, from the seeds on. *)
Inductive reachable `{PyEnv} (max_depth max_pages : nat) (net : Crawl.network)
    (seeds : list Crawl.seed) (requests : nat) : Crawl.state → Prop :=
| reach_seed :
    reachable max_depth max_pages net seeds requests
      (Crawl.seed_state seeds requests)
| reach_step st ev st' :
    reachable max_depth max_pages net seeds requests st →
    Crawl.step max_depth max_pages net st = Crawl.Continue ev st' →
    reachable max_depth max_pages net seeds requests st'.



(* ===================================================================== *)
(** * Fetch failures (C8)                                                 *)
(* ===================================================================== *)

Section FetchBoundary.
Context `{PyEnv}.

(** The crawl's [fetch_page_html] never raises: a failed request, an error
    status and an undecodable body all give [None]. *)
Lemma crawl_fetch_total (o : http_outcome) :
  Crawl.fetch_page_html o = match fetch_body o with
                            | Ok html => html
                            | Raise _ => None
                            end.
Proof. done. Qed.

Lemma crawl_fetch_failure (e : exn) (status_code : Z) (b : body) :
  Crawl.fetch_page_html (Fails e) = None
  ∧ Crawl.fetch_page_html (Response status_code NotJson) = None
  ∧ Crawl.fetch_page_html (Response 404 b) = None
  ∧ Crawl.fetch_page_html (Response 503 b) = None.
Proof.
  unfold Crawl.fetch_page_html, fetch_body. repeat split; try done.
  simpl. by destruct (raise_for_status status_code).
Qed.

(** C8, at the failing inputs: the patch script's [fetch_page_html] has no
    [try], so a timeout or a transport error of the request, an error
    status and an undecodable body each leave [fetch_page_html] as an
    exception and end [main] with it, before the dataset is written. *)
Theorem klint_fetch_failure_propagates (data : dataset) (e : exn) (b : body) :
  PatchKlint.fetch_page_html (Fails e) = Raise e
  ∧ PatchKlint.main data (Fails e) = Raise e
  ∧ PatchKlint.main data (Fails Timeout) = Raise Timeout
  ∧ PatchKlint.main data (Fails ConnectionError) = Raise ConnectionError
  ∧ PatchKlint.main data (Response 503 b) = Raise (HTTPError 503)
  ∧ PatchKlint.main data (Response 200 NotJson) = Raise JSONDecodeError.
Proof. repeat split. Qed.

End FetchBoundary.

(* ===================================================================== *)
(** * Re-running the Klint Kubiak patch (C1, C2)                          *)
(* ===================================================================== *)

Section KlintRerun.
Context `{PyEnv}.

(** C1, at the failing input: on the empty dataset with no page text, the
    first run writes the coach and the manual connection; the second run,
    on that dataset, removes the connection as stale and, having recorded
    its pair before the removal, does not insert it again. *)
Theorem klint_second_run_drops_connection :
  PatchKlint.main empty_dataset no_page
    = Ok (Dataset [klint_coach] [gary_klint] [])
  ∧ PatchKlint.main (Dataset [klint_coach] [gary_klint] []) no_page
    = Ok (Dataset [klint_coach] [] []).
Proof. split; vm_compute; reflexivity. Qed.

(** C2, at the failing input: the manual connection is inserted although
    its source is not the id of any coach record. *)
Theorem klint_manual_connection_dangles :
  PatchKlint.main empty_dataset no_page
    = Ok (Dataset [klint_coach] [gary_klint] [])
  ∧ gary_klint ∈ connections (Dataset [klint_coach] [gary_klint] [])
  ∧ source gary_klint ∉ coach_ids (Dataset [klint_coach] [gary_klint] []).
Proof.
  split; [vm_compute; reflexivity|]. split; [set_solver|].
  unfold coach_ids. simpl. intros Hin%list_elem_of_singleton. discriminate Hin.
Qed.

End KlintRerun.

(* ===================================================================== *)
(** * Unordered pairs (C3)                                                *)
(* ===================================================================== *)

Lemma same_pair_sym a b : same_pair a b → same_pair b a.
Proof. unfold same_pair. intuition congruence. Qed.

Lemma unique_pairs_apart l : unique_pairs l ↔ pairwise_apart l.
Proof.
  split.
  - induction l as [|a l IH]; intros Hu; constructor.
    + apply Forall_forall. intros b Hb Hab.
      apply list_elem_of_lookup in Hb as [j Hj].
      specialize (Hu 0%nat (S j) a b eq_refl Hj Hab). discriminate.
    + apply IH. intros i j x y Hi Hj Hxy.
      specialize (Hu (S i) (S j) x y Hi Hj Hxy). congruence.
  - induction 1 as [|a l Ha _ IH]; intros i j x y Hi Hj Hxy.
    + by rewrite lookup_nil in Hi.
    + rewrite Forall_forall in Ha.
      destruct i as [|i], j as [|j]; simpl in *; simplify_eq; try done.
      * exfalso. eapply Ha; [|done]. by eapply list_elem_of_lookup_2.
      * exfalso. eapply Ha; [|by apply same_pair_sym].
        by eapply list_elem_of_lookup_2.
      * f_equal. by eapply IH.
Qed.

Lemma Forall_list_filter {A} (P : A → Prop) (f : A → bool) (l : list A) :
  Forall P l → Forall P (List.filter f l).
Proof.
  induction 1 as [|x l Hx _ IH]; simpl; [constructor|].
  destruct (f x); [by constructor|done].
Qed.

Lemma elem_of_list_filter {A} (f : A → bool) (l : list A) (x : A) :
  x ∈ List.filter f l ↔ x ∈ l ∧ f x = true.
Proof. rewrite !list_elem_of_In. apply List.filter_In. Qed.

Lemma apart_filter f l : pairwise_apart l → pairwise_apart (List.filter f l).
Proof.
  induction 1 as [|a l Ha _ IH]; simpl; [constructor|].
  destruct (f a); [|done]. constructor; [|done]. by apply Forall_list_filter.
Qed.

Lemma apart_snoc l c :
  pairwise_apart l → Forall (λ a, ¬ same_pair a c) l →
  pairwise_apart (l ++ [c]).
Proof.
  induction 1 as [|a l Ha _ IH]; intros Hc; simpl.
  - repeat constructor.
  - apply Forall_cons in Hc as [Hac Hc]. constructor; [|by apply IH].
    apply Forall_app. split; [done|]. by repeat constructor.
Qed.

Lemma guarded_nil S : guarded [] S.
Proof. split; [constructor|]. intros c Hc. by apply elem_of_nil in Hc. Qed.

Lemma guarded_mono l S S' : S ⊆ S' → guarded l S → guarded l S'.
Proof. intros HS [Hl Hin]. split; [done|]. intros c Hc. apply HS. auto. Qed.

(** The insertion every script performs: a connection whose pair is in the
    set in neither direction is appended and its pair recorded. *)
Lemma guarded_snoc l S c :
  guarded l S → pair_of c ∉ S → (target c, source c) ∉ S →
  guarded (l ++ [c]) ({[pair_of c]} ∪ S).
Proof.
  intros [Hl Hin] Hk Hr. split.
  - apply apart_snoc; [done|]. apply Forall_forall. intros a Ha Hac.
    specialize (Hin a Ha). unfold pair_of in *.
    destruct Hac as [[E1 E2]|[E1 E2]]; rewrite E1, E2 in Hin; done.
  - intros x [Hx|Hx%list_elem_of_singleton]%elem_of_app.
    + apply elem_of_union_r. auto.
    + subst x. apply elem_of_union_l. by apply elem_of_singleton.
Qed.

Lemma guarded_filter f l S : guarded l S → guarded (List.filter f l) S.
Proof.
  intros [Hl Hin]. split; [by apply apart_filter|].
  intros c [Hc _]%elem_of_list_filter. auto.
Qed.

Lemma guarded_of_list l :
  pairwise_apart l → guarded l (list_to_set (map pair_of l)).
Proof.
  intros Hl. split; [done|]. intros c Hc.
  apply elem_of_list_to_set, list_elem_of_fmap. eauto.
Qed.
(* ===================================================================== *)
(** * patch_missing_connections.py: the merge                             *)
(* ===================================================================== *)

Section MissingPatch.
Import PatchMissing.






Lemma add_coach_conns st c :
  existing_conns (add_coach st c) = existing_conns st
  ∧ m_connections (add_coach st c) = m_connections st.
Proof. unfold add_coach. by case_bool_decide. Qed.



Lemma add_coaches_conns st cs :
  existing_conns (foldl add_coach st cs) = existing_conns st
  ∧ m_connections (foldl add_coach st cs) = m_connections st.
Proof.
  revert st. induction cs as [|c cs IH]; intros st; simpl; [done|].
  destruct (IH (add_coach st c)) as [-> ->]. apply add_coach_conns.
Qed.















End MissingPatch.

(* ===================================================================== *)
(** * No repeated unordered pair: the three scripts                       *)
(* ===================================================================== *)

Lemma missing_add_connection_guarded st x :
  guarded (PatchMissing.m_connections st) (PatchMissing.existing_conns st) →
  guarded (PatchMissing.m_connections (PatchMissing.add_connection st x))
          (PatchMissing.existing_conns (PatchMissing.add_connection st x)).
Proof.
  intros Hg. destruct x as [[s t] ctx].
  unfold PatchMissing.add_connection, PatchMissing.say.
  destruct (bool_decide _ || bool_decide _) eqn:E; [done|].
  apply orb_false_iff in E as [E1%bool_decide_eq_false E2%bool_decide_eq_false].
  repeat case_bool_decide; try done. simpl.
  by apply (guarded_snoc _ _ (Connection s t coaching_tree None (Some ctx))).
Qed.

Lemma missing_merge_guarded ncs nxs data :
  pairwise_apart (connections data) →
  guarded (PatchMissing.m_connections (PatchMissing.merge_tables ncs nxs data))
          (PatchMissing.existing_conns (PatchMissing.merge_tables ncs nxs data)).
Proof.
  intros Hd. unfold PatchMissing.merge_tables.
  set (st0 := PatchMissing.Merge _ _ _ _ _).
  assert (guarded (PatchMissing.m_connections (foldl PatchMissing.add_coach st0 ncs))
            (PatchMissing.existing_conns (foldl PatchMissing.add_coach st0 ncs)))
    as H0.
  { destruct (add_coaches_conns st0 ncs) as [-> ->]. by apply guarded_of_list. }
  revert H0. generalize (foldl PatchMissing.add_coach st0 ncs). clear.
  induction nxs as [|x nxs IH]; intros st Hst; simpl; [done|].
  by apply IH, missing_add_connection_guarded.
Qed.

Section KlintPairs.
Context `{PyEnv}.

Lemma klint_add_member_guarded base st m :
  guarded (base ++ PatchKlint.new_connections st) (PatchKlint.existing_conns st) →
  guarded (base ++ PatchKlint.new_connections (PatchKlint.add_member st m))
          (PatchKlint.existing_conns (PatchKlint.add_member st m)).
Proof.
  intros Hg. destruct m as [[[linked_name linked_page] rel] ctx].
  unfold PatchKlint.add_member.
  destruct (decide (rel = mentor)); simpl;
    (destruct (bool_decide _ && bool_decide _) eqn:E; [|done]);
    apply andb_true_iff in E as [E1%bool_decide_eq_true E2%bool_decide_eq_true];
    rewrite app_assoc;
    match goal with
    | |- guarded (_ ++ [?c]) _ => by apply (guarded_snoc _ _ c)
    end.
Qed.

Lemma klint_add_manual_guarded base st m :
  guarded (base ++ PatchKlint.new_connections st) (PatchKlint.existing_conns st) →
  guarded (base ++ PatchKlint.new_connections (PatchKlint.add_manual st m))
          (PatchKlint.existing_conns (PatchKlint.add_manual st m)).
Proof.
  intros Hg. destruct m as [[[[src tgt] ty] yrs] ctx].
  unfold PatchKlint.add_manual.
  destruct (bool_decide _ && bool_decide _) eqn:E; [|done].
  apply andb_true_iff in E as [E1%bool_decide_eq_true E2%bool_decide_eq_true].
  simpl. rewrite app_assoc.
  by apply (guarded_snoc _ _ (Connection src tgt ty yrs (Some ctx))).
Qed.

Lemma klint_add_members_guarded base ms st :
  guarded (base ++ PatchKlint.new_connections st) (PatchKlint.existing_conns st) →
  guarded (base ++ PatchKlint.new_connections (foldl PatchKlint.add_member st ms))
          (PatchKlint.existing_conns (foldl PatchKlint.add_member st ms)).
Proof.
  revert st. induction ms as [|m ms IH]; intros st Hst; simpl; [done|].
  by apply IH, klint_add_member_guarded.
Qed.

Lemma klint_add_manuals_guarded base ms st :
  guarded (base ++ PatchKlint.new_connections st) (PatchKlint.existing_conns st) →
  guarded (base ++ PatchKlint.new_connections (foldl PatchKlint.add_manual st ms))
          (PatchKlint.existing_conns (foldl PatchKlint.add_manual st ms)).
Proof.
  revert st. induction ms as [|m ms IH]; intros st Hst; simpl; [done|].
  by apply IH, klint_add_manual_guarded.
Qed.

(** The connections [main] writes: the ones it kept, then the new ones. *)
Lemma klint_main_connections data o d :
  PatchKlint.main data o = Ok d →
  ∃ st, connections d
        = List.filter (λ c, negb (str_eqb (source c) PatchKlint.klint_id)
                            && negb (str_eqb (target c) PatchKlint.klint_id))
            (connections data) ++ PatchKlint.new_connections st
        ∧ (pairwise_apart (connections data) →
           guarded (connections d) (PatchKlint.existing_conns st)).
Proof.
  unfold PatchKlint.main.
  destruct (PatchKlint.fetch_page_html o) as [html|e]; [|done].
  unfold mbind, result_bind.
  set (base := List.filter _ (connections data)).
  set (st0 := PatchKlint.Merge _ [] _ _).
  assert (pairwise_apart (connections data) →
          guarded (base ++ PatchKlint.new_connections st0)
                  (PatchKlint.existing_conns st0)) as H0.
  { intros Hd. unfold st0. cbn [PatchKlint.new_connections PatchKlint.existing_conns].
    rewrite app_nil_r. apply guarded_filter. by apply guarded_of_list. }
  assert (∀ ms st d,
    (pairwise_apart (connections data) →
     guarded (base ++ PatchKlint.new_connections st) (PatchKlint.existing_conns st)) →
    Ok (Dataset (PatchKlint.m_coaches (foldl PatchKlint.add_manual st ms))
          (base ++ PatchKlint.new_connections (foldl PatchKlint.add_manual st ms))
          (team_colors data)) = Ok d →
    ∃ st', connections d = base ++ PatchKlint.new_connections st'
           ∧ (pairwise_apart (connections data) →
              guarded (connections d) (PatchKlint.existing_conns st'))) as Hfin.
  { intros ms st d' Hst [= <-].
    exists (foldl PatchKlint.add_manual st ms).
    split; [done|]. intros Hd.
    cbn [connections]. by apply klint_add_manuals_guarded, Hst. }
  destruct html as [[|c text]|].
  - apply (Hfin PatchKlint.manual), H0.
  - destruct (PatchKlint.parse_infobox_career _) as [career|e]; [|done].
    apply (Hfin PatchKlint.manual). intros Hd.
    by apply klint_add_members_guarded, H0.
  - apply (Hfin PatchKlint.manual), H0.
Qed.

End KlintPairs.

(* ===================================================================== *)
(** * The crawl loop                                                      *)
(* ===================================================================== *)

Section CrawlLoop.
Context `{PyEnv}.
Variables (max_depth max_pages : nat) (net : Crawl.network).

Lemma add_member_counters coach_id depth st m :
  Crawl.total_scraped (Crawl.add_member max_depth coach_id depth st m)
    = Crawl.total_scraped st
  ∧ Crawl.requests (Crawl.add_member max_depth coach_id depth st m)
    = Crawl.requests st
  ∧ Crawl.visited (Crawl.add_member max_depth coach_id depth st m)
    = Crawl.visited st
  ∧ Crawl.career_data (Crawl.add_member max_depth coach_id depth st m)
    = Crawl.career_data st.
Proof.
  destruct m as [[[linked_name linked_page] rel] ctx]. unfold Crawl.add_member.
  by destruct (decide (rel = mentor)).
Qed.

Lemma add_members_counters coach_id depth ms st :
  Crawl.total_scraped (foldl (Crawl.add_member max_depth coach_id depth) st ms)
    = Crawl.total_scraped st
  ∧ Crawl.requests (foldl (Crawl.add_member max_depth coach_id depth) st ms)
    = Crawl.requests st
  ∧ Crawl.visited (foldl (Crawl.add_member max_depth coach_id depth) st ms)
    = Crawl.visited st
  ∧ Crawl.career_data (foldl (Crawl.add_member max_depth coach_id depth) st ms)
    = Crawl.career_data st.
Proof.
  revert st. induction ms as [|m ms IH]; intros st; simpl; [done|].
  destruct (IH (Crawl.add_member max_depth coach_id depth st m))
    as (-> & -> & -> & ->).
  apply add_member_counters.
Qed.

(** The shapes of one turn of the loop. *)
Lemma step_cases st :
  match Crawl.step max_depth max_pages net st with
  | Crawl.Exit => Crawl.queue st = [] ∨ max_pages ≤ Crawl.total_scraped st
  | Crawl.Abort e =>
      Crawl.queue st ≠ [] ∧ Crawl.total_scraped st < max_pages
  | Crawl.Continue ev st' =>
      Crawl.total_scraped st < max_pages ∧
      ∃ entry queue', Crawl.queue st = entry :: queue' ∧
      match ev with
      | Crawl.Scraped page =>
          page = (entry.1.1.2) ∧ (page ∉ Crawl.visited st) ∧
          Crawl.total_scraped st' = S (Crawl.total_scraped st) ∧
          Crawl.requests st' = S (Crawl.requests st) ∧
          Crawl.visited st' = {[page]} ∪ Crawl.visited st ∧
          ¬ no_html (Crawl.fetch_page_html (net (Crawl.requests st) page))
      | Crawl.NoHtml page =>
          page = (entry.1.1.2) ∧ (page ∉ Crawl.visited st) ∧
          Crawl.total_scraped st' = Crawl.total_scraped st ∧
          Crawl.requests st' = S (Crawl.requests st) ∧
          Crawl.visited st' = {[page]} ∪ Crawl.visited st ∧
          Crawl.queue st' = queue' ∧
          no_html (Crawl.fetch_page_html (net (Crawl.requests st) page))
      | Crawl.AlreadyVisited page =>
          page = (entry.1.1.2) ∧ page ∈ Crawl.visited st ∧
          Crawl.total_scraped st' = Crawl.total_scraped st ∧
          Crawl.requests st' = Crawl.requests st ∧
          Crawl.visited st' = Crawl.visited st ∧
          Crawl.queue st' = queue'
      end
  end.
Proof.
  unfold Crawl.step.
  destruct (Crawl.queue st) as [|[[[name page] team] cur] queue'] eqn:Hq;
    [by left|].
  destruct (Crawl.total_scraped st <? max_pages)%nat eqn:Hlt; simpl.
  2: { right. apply Nat.ltb_ge in Hlt. lia. }
  apply Nat.ltb_lt in Hlt.
  case_bool_decide as Hv.
  { split; [done|]. by exists (name, page, team, cur), queue'. }
  destruct (Crawl.fetch_page_html (net (Crawl.requests st) page))
    as [[|c html]|] eqn:Hf.
  - split; [done|]. exists (name, page, team, cur), queue'. split; [done|].
    simpl. rewrite Hf. by repeat split.
  - destruct (Crawl.parse_career_history _) as [career|e].
    + split; [done|]. exists (name, page, team, cur), queue'. split; [done|].
      match goal with
      | |- context [foldl ?f ?s ?ms] =>
          destruct (add_members_counters (make_id name)
                      (default 0%nat (Crawl.depth_map st !! page)) ms s)
            as (-> & -> & -> & _)
      end.
      simpl. rewrite Hf. repeat split; auto.
    + split; [congruence|done].
  - split; [done|]. exists (name, page, team, cur), queue'. split; [done|].
    simpl. rewrite Hf. by repeat split.
Qed.

Lemma loop_unfold fuel st :
  Crawl.loop max_depth max_pages net (S fuel) st
  = match Crawl.step max_depth max_pages net st with
    | Crawl.Exit => ([], Some (Ok st))
    | Crawl.Abort e => ([], Some (Raise e))
    | Crawl.Continue ev st' =>
        let '(evs, r) := Crawl.loop max_depth max_pages net fuel st' in
        (ev :: evs, r)
    end.
Proof. done. Qed.

(** A property every turn keeps holds when the loop ends. *)
Lemma loop_invariant (P : Crawl.state → Prop) :
  (∀ st ev st', P st →
     Crawl.step max_depth max_pages net st = Crawl.Continue ev st' → P st') →
  ∀ fuel st evs st', P st →
    Crawl.loop max_depth max_pages net fuel st = (evs, Some (Ok st')) → P st'.
Proof.
  intros Hstep. induction fuel as [|fuel IH]; intros st evs st' HP; [done|].
  rewrite loop_unfold.
  destruct (Crawl.step max_depth max_pages net st) as [|ev st1|e] eqn:Hs.
  - by intros [= <- <-].
  - destruct (Crawl.loop max_depth max_pages net fuel st1) as [evs1 r1] eqn:Hl.
    intros [= <- ->]. eapply IH; [|exact Hl]. eauto.
  - done.
Qed.

(** More fuel does not change a finished run. *)
Lemma loop_more_fuel fuel fuel' st evs r :
  fuel ≤ fuel' →
  Crawl.loop max_depth max_pages net fuel st = (evs, Some r) →
  Crawl.loop max_depth max_pages net fuel' st = (evs, Some r).
Proof.
  revert fuel' st evs. induction fuel as [|fuel IH]; intros fuel' st evs Hle;
    [done|].
  destruct fuel' as [|fuel']; [lia|]. rewrite !loop_unfold.
  destruct (Crawl.step max_depth max_pages net st) as [|ev st1|e]; try done.
  destruct (Crawl.loop max_depth max_pages net fuel st1) as [evs1 r1] eqn:Hl.
  intros [= <- ->]. rewrite (IH fuel' st1 evs1); [done|lia|done].
Qed.

(** The loop ends, whatever the network answers: a turn either takes an
    entry off the queue without adding any, or counts a page towards the
    ceiling. *)
Lemma loop_terminates st :
  ∃ fuel evs r, Crawl.loop max_depth max_pages net fuel st = (evs, Some r).
Proof.
  remember (max_pages - Crawl.total_scraped st) as budget eqn:Hb.
  assert (max_pages - Crawl.total_scraped st ≤ budget) as Hle by lia. clear Hb.
  revert st Hle. induction budget as [|budget IHb]; intros st Hle.
  - exists 1, [], (Ok st). rewrite loop_unfold.
    pose proof (step_cases st) as Hc.
    destruct (Crawl.step max_depth max_pages net st) as [|ev st1|e]; [done|..].
    + lia.
    + lia.
  - remember (length (Crawl.queue st)) as n eqn:Hn.
    assert (length (Crawl.queue st) ≤ n) as Hq by lia. clear Hn.
    revert st Hle Hq. induction n as [|n IHn]; intros st Hle Hq.
    + exists 1, [], (Ok st). rewrite loop_unfold. unfold Crawl.step.
      destruct (Crawl.queue st); [done|simpl in Hq; lia].
    + pose proof (step_cases st) as Hc.
      destruct (Crawl.step max_depth max_pages net st) as [|ev st1|e] eqn:Hs.
      * exists 1, [], (Ok st). by rewrite loop_unfold, Hs.
      * destruct Hc as (Hlt & entry & queue' & Hqe & Hev).
        assert (∃ fuel evs r,
                  Crawl.loop max_depth max_pages net fuel st1 = (evs, Some r))
          as (fuel & evs & r & Hl).
        { destruct ev as [page|page|page].
          - destruct Hev as (_ & _ & Ht & _ & _ & Hq').
            apply IHn; [lia|]. rewrite Hq'. rewrite Hqe in Hq. simpl in Hq. lia.
          - destruct Hev as (_ & _ & Ht & _ & _ & Hq' & _).
            apply IHn; [lia|]. rewrite Hq'. rewrite Hqe in Hq. simpl in Hq. lia.
          - destruct Hev as (_ & _ & Ht & _). apply IHb. lia. }
        exists (S fuel), (ev :: evs), r. by rewrite loop_unfold, Hs, Hl.
      * exists 1, [], (Raise e). by rewrite loop_unfold, Hs.
Qed.

(** The counter and the pages processed. *)
Lemma loop_budget fuel st evs r :
  Crawl.total_scraped st ≤ max_pages →
  Crawl.loop max_depth max_pages net fuel st = (evs, r) →
  Crawl.total_scraped st + pages_scraped evs ≤ max_pages
  ∧ ∀ st', r = Some (Ok st') →
      Crawl.total_scraped st' = Crawl.total_scraped st + pages_scraped evs.
Proof.
  revert st evs r. induction fuel as [|fuel IH]; intros st evs r Hle.
  { intros [= <- <-]. unfold pages_scraped. simpl. split; [lia|done]. }
  rewrite loop_unfold. pose proof (step_cases st) as Hc.
  destruct (Crawl.step max_depth max_pages net st) as [|ev st1|e].
  - intros [= <- <-]. unfold pages_scraped. simpl. split; [lia|].
    intros st' [= <-]. lia.
  - destruct (Crawl.loop max_depth max_pages net fuel st1) as [evs1 r1] eqn:Hl.
    intros [= <- <-]. destruct Hc as (Hlt & entry & queue' & Hqe & Hev).
    assert (Crawl.total_scraped st1
            = Crawl.total_scraped st + (if is_scraped ev then 1 else 0)) as Ht.
    { destruct ev; simpl; destruct Hev as (_ & _ & -> & _); lia. }
    destruct (IH st1 evs1 r1) as [Hb Hr]; [destruct (is_scraped ev); lia|done|].
    unfold pages_scraped in *. simpl. destruct (is_scraped ev); simpl.
    + split; [lia|]. intros st' Hst'. rewrite (Hr st' Hst'). lia.
    + split; [lia|]. intros st' Hst'. rewrite (Hr st' Hst'). lia.
  - intros [= <- <-]. unfold pages_scraped. simpl. split; [lia|done].
Qed.

End CrawlLoop.

Section CrawlPairs.
Context `{PyEnv}.
Variables (max_depth max_pages : nat) (net : Crawl.network).

Lemma crawl_add_member_guarded coach_id depth st m :
  crawl_guarded st →
  crawl_guarded (Crawl.add_member max_depth coach_id depth st m).
Proof.
  unfold crawl_guarded. intros Hg.
  destruct m as [[[linked_name linked_page] rel] ctx]. unfold Crawl.add_member.
  destruct (decide (rel = mentor)); simpl;
    (destruct (bool_decide _ && bool_decide _) eqn:E; [|done]);
    apply andb_true_iff in E as [E1%bool_decide_eq_true E2%bool_decide_eq_true];
    match goal with
    | |- guarded (_ ++ [?c]) _ => by apply (guarded_snoc _ _ c)
    end.
Qed.

Lemma crawl_add_members_guarded coach_id depth ms st :
  crawl_guarded st →
  crawl_guarded (foldl (Crawl.add_member max_depth coach_id depth) st ms).
Proof.
  revert st. induction ms as [|m ms IH]; intros st Hst; simpl; [done|].
  by apply IH, crawl_add_member_guarded.
Qed.

Lemma step_guarded st ev st' :
  crawl_guarded st →
  Crawl.step max_depth max_pages net st = Crawl.Continue ev st' →
  crawl_guarded st'.
Proof.
  intros Hg. unfold Crawl.step.
  destruct (Crawl.queue st) as [|[[[name page] team] cur] queue']; [done|].
  destruct (negb _); [done|]. case_bool_decide.
  { by intros [= <- <-]. }
  destruct (Crawl.fetch_page_html _) as [[|c html]|].
  - by intros [= <- <-].
  - destruct (Crawl.parse_career_history _) as [career|e]; [|done].
    intros [= <- <-]. by apply crawl_add_members_guarded.
  - by intros [= <- <-].
Qed.

Lemma overlap_guarded cid_a cid_b ca cb acc :
  guarded acc.1 acc.2 →
  guarded (Crawl.overlap cid_a cid_b ca cb acc).1
          (Crawl.overlap cid_a cid_b ca cb acc).2.
Proof.
  destruct acc as [l S]. intros Hg. unfold Crawl.overlap.
  destruct (_ && _); [|done]. destruct (_ <=? _)%Z; [|done].
  destruct (bool_decide _ && bool_decide _) eqn:E; [|done].
  apply andb_true_iff in E as [E1%bool_decide_eq_true E2%bool_decide_eq_true].
  simpl. match goal with
         | |- guarded (_ ++ [?c]) _ => by apply (guarded_snoc _ _ c)
         end.
Qed.

Lemma foldl_guarded {A} (f : list connection * gset (str * str) → A →
                             list connection * gset (str * str)) xs acc :
  (∀ acc x, guarded acc.1 acc.2 → guarded (f acc x).1 (f acc x).2) →
  guarded acc.1 acc.2 → guarded (foldl f acc xs).1 (foldl f acc xs).2.
Proof.
  intros Hf. revert acc. induction xs as [|x xs IH]; intros acc Hacc; simpl;
    [done|]. by apply IH, Hf.
Qed.

Lemma cross_reference_guarded career_data acc :
  guarded acc.1 acc.2 →
  guarded (Crawl.cross_reference career_data acc).1
          (Crawl.cross_reference career_data acc).2.
Proof.
  revert acc. induction career_data as [|[cid_a career_a] others IH];
    intros acc Hacc; simpl; [done|].
  apply IH. apply foldl_guarded; [|done].
  intros acc1 [cid_b career_b] H1. apply foldl_guarded; [|done].
  intros acc2 ca H2. apply foldl_guarded; [|done].
  intros acc3 cb H3. by apply overlap_guarded.
Qed.

Lemma finish_apart st :
  crawl_guarded st → pairwise_apart (connections (Crawl.finish st)).
Proof.
  intros Hg. unfold Crawl.finish. cbn [connections].
  apply apart_filter.
  by apply (cross_reference_guarded _ (Crawl.conn_list st, Crawl.connection_set st)).
Qed.

Lemma seed_state_guarded seeds requests :
  crawl_guarded (Crawl.seed_state seeds requests).
Proof. apply guarded_nil. Qed.

Lemma crawl_result seeds requests fuel evs r :
  Crawl.crawl max_depth max_pages net seeds requests fuel = (evs, r) →
  ∃ r', Crawl.loop max_depth max_pages net fuel
          (Crawl.seed_state seeds requests) = (evs, r')
        ∧ r = (λ r, st ← r; Ok (Crawl.finish st)) <$> r'.
Proof.
  unfold Crawl.crawl.
  destruct (Crawl.loop _ _ _ _ _) as [evs' r']. intros [= <- <-]. eauto.
Qed.

Lemma crawl_ok seeds requests fuel evs d :
  Crawl.crawl max_depth max_pages net seeds requests fuel = (evs, Some (Ok d)) →
  ∃ st, Crawl.loop max_depth max_pages net fuel
          (Crawl.seed_state seeds requests) = (evs, Some (Ok st))
        ∧ d = Crawl.finish st.
Proof.
  intros (r' & Hl & Hr)%crawl_result.
  destruct r' as [[st|e]|]; simpl in Hr; try done.
  injection Hr as ->. eauto.
Qed.

Lemma crawl_apart seeds requests fuel evs d :
  Crawl.crawl max_depth max_pages net seeds requests fuel = (evs, Some (Ok d)) →
  pairwise_apart (connections d).
Proof.
  intros (st & Hl & ->)%crawl_ok. apply finish_apart.
  eapply (loop_invariant max_depth max_pages net crawl_guarded);
    [|apply seed_state_guarded|exact Hl].
  intros st0 ev st1. apply step_guarded.
Qed.

End CrawlPairs.

(** C3. No unordered pair of ids is joined twice: the connections a crawl
    returns have no repeated or mirrored pair, and the two patch scripts
    keep a dataset free of them, because every insertion -- of a
    coaching_tree or a career_overlap edge -- is skipped when the set of
    recorded pairs holds the pair in either direction. *)
Theorem no_mirrored_edges `{PyEnv} (max_depth max_pages : nat)
    (net : Crawl.network) (seeds : list Crawl.seed) (requests : nat) :
  (∀ fuel evs d,
     Crawl.crawl max_depth max_pages net seeds requests fuel
       = (evs, Some (Ok d)) →
     unique_pairs (connections d))
  ∧ (∀ data,
       unique_pairs (connections data) →
       unique_pairs (connections (PatchMissing.main data).1))
  ∧ (∀ data o d,
       unique_pairs (connections data) →
       PatchKlint.main data o = Ok d →
       unique_pairs (connections d)).
Proof.
  split; [|split].
  - intros fuel evs d Hc. apply unique_pairs_apart. by eapply crawl_apart.
  - intros data Hd%unique_pairs_apart. apply unique_pairs_apart.
    unfold PatchMissing.main. cbv zeta. cbn [fst connections].
    by apply missing_merge_guarded.
  - intros data o d Hd%unique_pairs_apart Hm. apply unique_pairs_apart.
    destruct (klint_main_connections data o d Hm) as (st & _ & Hg).
    by apply Hg.
Qed.

Lemma unique_pairs_single c : unique_pairs [c].
Proof. apply unique_pairs_apart. repeat constructor. Qed.

Lemma no_mirrored_edges_witness :
  (@Crawl.crawl toy_env 5 300 toy_net toy_seeds 0 10
     = (toy_run.1, Some (Ok toy_dataset))
   ∧ length (connections toy_dataset) = 2
   ∧ unique_pairs (connections toy_dataset))
  ∧ unique_pairs
      (connections (PatchMissing.main (Dataset [] [gary_klint] [])).1)
  ∧ (@PatchKlint.main toy_env (Dataset [] [gary_klint] []) (toy_net 0 [])
       = Ok toy_patched
     ∧ unique_pairs (connections toy_patched)).
Proof.
  pose proof (@no_mirrored_edges toy_env 5 300 toy_net toy_seeds 0)
    as (Hcrawl & Hmissing & Hklint).
  split; [|split].
  - split; [vm_compute; reflexivity|]. split; [reflexivity|].
    apply (Hcrawl 10 toy_run.1 toy_dataset). vm_compute. reflexivity.
  - apply Hmissing, unique_pairs_single.
  - split; [vm_compute; reflexivity|].
    apply (Hklint (Dataset [] [gary_klint] []) (toy_net 0 []) toy_patched);
      [apply unique_pairs_single|]. vm_compute. reflexivity.
Defined.

Section Budget.
Context `{PyEnv}.
Variables (max_depth max_pages : nat) (net : Crawl.network).

Lemma step_at_ceiling st :
  max_pages ≤ Crawl.total_scraped st →
  Crawl.step max_depth max_pages net st = Crawl.Exit.
Proof.
  intros Hle. unfold Crawl.step.
  destruct (Crawl.queue st) as [|[[[name page] team] cur] queue']; [done|].
  destruct (Crawl.total_scraped st <? max_pages)%nat eqn:E; [|done].
  apply Nat.ltb_lt in E. lia.
Qed.

Lemma step_counter st ev st' :
  Crawl.total_scraped st ≤ max_pages →
  Crawl.step max_depth max_pages net st = Crawl.Continue ev st' →
  Crawl.total_scraped st' ≤ max_pages.
Proof.
  intros Hle Hs. pose proof (step_cases max_depth max_pages net st) as Hc.
  rewrite Hs in Hc. destruct Hc as (Hlt & entry & queue' & _ & Hev).
  destruct ev; destruct Hev as (_ & _ & -> & _); lia.
Qed.

Lemma crawl_terminates seeds requests :
  ∃ fuel evs r,
    Crawl.crawl max_depth max_pages net seeds requests fuel = (evs, Some r).
Proof.
  destruct (loop_terminates max_depth max_pages net
              (Crawl.seed_state seeds requests)) as (fuel & evs & r & Hl).
  exists fuel, evs. unfold Crawl.crawl. rewrite Hl. simpl. eauto.
Qed.

End Budget.

(** C5. The page budget: a crawl fetches and processes at most [max_pages]
    pages, however long its queue; the counter of processed pages never
    passes the ceiling; once it has reached it the loop stops without
    another request; and the crawl comes to an end. *)
Theorem page_budget `{PyEnv} (max_depth max_pages : nat)
    (net : Crawl.network) (seeds : list Crawl.seed) (requests : nat) :
  (∀ fuel evs r,
     Crawl.crawl max_depth max_pages net seeds requests fuel = (evs, r) →
     pages_scraped evs ≤ max_pages)
  ∧ (∀ st ev st',
       Crawl.total_scraped st ≤ max_pages →
       Crawl.step max_depth max_pages net st = Crawl.Continue ev st' →
       Crawl.total_scraped st' ≤ max_pages)
  ∧ (∀ st,
       max_pages ≤ Crawl.total_scraped st →
       Crawl.step max_depth max_pages net st = Crawl.Exit)
  ∧ (∃ fuel evs r,
       Crawl.crawl max_depth max_pages net seeds requests fuel
         = (evs, Some r)).
Proof.
  split; [|split; [|split]].
  - intros fuel evs r (r' & Hl & _)%crawl_result.
    apply loop_budget in Hl as [Hb _]; simpl in *; lia.
  - apply step_counter.
  - apply step_at_ceiling.
  - apply crawl_terminates.
Qed.

Lemma page_budget_witness :
  (@Crawl.crawl toy_env 5 1 toy_net toy_seeds 0 10 = toy_run_1
   ∧ pages_scraped toy_run_1.1 = 1 ∧ pages_scraped toy_run_1.1 ≤ 1)
  ∧ @Crawl.step toy_env 5 1 toy_net
      (Crawl.State [] [] ∅ [] [(py "Bill Walsh", py "Bill Walsh", None, false)]
         ∅ ∅ 1 1) = Crawl.Exit.
Proof.
  pose proof (@page_budget toy_env 5 1 toy_net toy_seeds 0)
    as (Hcount & _ & Hexit & _).
  split.
  - split; [vm_compute; reflexivity|]. split; [reflexivity|].
    apply (Hcount 10 toy_run_1.1 toy_run_1.2). vm_compute. reflexivity.
  - apply Hexit. simpl. lia.
Defined.

(* ===================================================================== *)
(** * The year patterns                                                   *)
(* ===================================================================== *)


Section Regex.
Context `{PyEnv}.

(** A greedy star whose continuation cannot start on the starred class
    takes the whole run. *)
Lemma rmatch_star {A} (p : N → bool) caps s (k : list str → str → option A)
    (strip_p : str → str) :
  (∀ s, strip_p s = match s with
                    | c :: s' => if p c then strip_p s' else s
                    | [] => []
                    end) →
  (∀ c s', p c = true → k caps (c :: s') = None) →
  rmatch (Star p) caps s k = k caps (strip_p s).
Proof.
  intros Hstrip Hk. induction s as [|c s IH]; rewrite Hstrip; [done|].
  simpl in *. destruct (p c) eqn:Hp; [|done].
  rewrite IH. rewrite (Hk c s Hp). by destruct (k caps (strip_p s)).
Qed.

Lemma lstrip_unfold s :
  lstrip s = match s with
             | c :: s' => if isspace c then lstrip s' else s
             | [] => []
             end.
Proof. by destruct s. Qed.

Lemma rmatch_spaces {A} caps s (k : list str → str → option A) :
  (∀ c s', isspace c = true → k caps (c :: s') = None) →
  rmatch (Star isspace) caps s k = k caps (lstrip s).
Proof. apply rmatch_star, lstrip_unfold. Qed.

Lemma take_length_diff {A} (m rest : list A) :
  take (length (m ++ rest) - length rest) (m ++ rest) = m.
Proof.
  rewrite length_app. replace (length m + length rest - length rest) with (length m) by lia.
  by rewrite take_app_length.
Qed.

Lemma rmatch_digit4 {A} caps s (k : list str → str → option A) :
  rmatch digit4 caps s k
  = match digits4_prefix s with
    | Some (_, rest) => k caps rest
    | None => None
    end.
Proof.
  unfold digit4, digits4_prefix.
  destruct s as [|a [|b [|c [|d rest]]]]; simpl; try done.
  - by destruct (digit a).
  - by destruct (digit a), (digit b).
  - by destruct (digit a), (digit b), (digit c).
  - by destruct (digit a), (digit b), (digit c), (digit d).
Qed.

Lemma digits4_prefix_app s g rest :
  digits4_prefix s = Some (g, rest) → s = g ++ rest ∧ length g = 4.
Proof.
  unfold digits4_prefix. destruct s as [|a [|b [|c [|d r]]]]; try done.
  destruct (_ && _); [|done]. by intros [= <- <-].
Qed.

Lemma rmatch_group_digit4 {A} caps s (k : list str → str → option A) :
  rmatch (Grp digit4) caps s k
  = match digits4_prefix s with
    | Some (g, rest) => k (caps ++ [g]) rest
    | None => None
    end.
Proof.
  cbn [rmatch]. rewrite rmatch_digit4.
  destruct (digits4_prefix s) as [[g rest]|] eqn:E; [|done].
  apply digits4_prefix_app in E as [-> _]. by rewrite take_length_diff.
Qed.

Lemma rmatch_word_i {A} w caps s (k : list str → str → option A) :
  rmatch (word_i w) caps s k
  = match word_prefix_i w s with
    | Some (_, rest) => k caps rest
    | None => None
    end.
Proof.
  revert s. induction w as [|c w IH]; intros s; [done|].
  unfold word_i in *. cbn [foldr rmatch word_prefix_i].
  destruct s as [|x s]; [done|]. destruct (lit_i c x); [|done].
  rewrite IH. by destruct (word_prefix_i w s) as [[m rest]|].
Qed.

Lemma word_prefix_i_app w s m rest :
  word_prefix_i w s = Some (m, rest) → s = m ++ rest ∧ length m = length w.
Proof.
  revert s m. induction w as [|c w IH]; intros s m; simpl.
  - by intros [= <- <-].
  - destruct s as [|x s]; [done|]. destruct (lit_i c x); [|done].
    destruct (word_prefix_i w s) as [[m' r]|] eqn:E; [|done].
    intros [= <- <-]. apply IH in E as [-> Hlen]. simpl. by rewrite Hlen.
Qed.

Lemma digits4_prefix_head s g rest :
  digits4_prefix s = Some (g, rest) → ∃ c s', s = c :: s' ∧ digit c = true.
Proof.
  unfold digits4_prefix. destruct s as [|a [|b [|c [|d r]]]]; try done.
  destruct (digit a) eqn:Ha; [|done]. eauto.
Qed.

Lemma digit_not_space c : isspace c = true → digit c = false.
Proof.
  intros Hs. unfold digit. rewrite (decimal_space c Hs).
  apply bool_decide_eq_false. by intros [? ?].
Qed.

Lemma digits4_prefix_space c s : isspace c = true → digits4_prefix (c :: s) = None.
Proof.
  intros Hs%digit_not_space. unfold digits4_prefix.
  destruct s as [|b [|c' [|d r]]]; try done. by rewrite Hs.
Qed.

Lemma lit_i_not_space c x :
  is_ascii_letter c = true → lit_i c x = true → isspace x = false.
Proof.
  unfold lit_i, is_ascii_letter, ascii_lower, case_fixes, one_of, isspace, LONG_S.
  intros Hc. rewrite Hc. intros Hx.
  repeat match goal with
         | H : context [if ?b then _ else _] |- _ => destruct b eqn:?
         | H : (_ || _) = true |- _ => apply orb_true_iff in H as [H|H]
         | H : (_ && _) = true |- _ => apply andb_true_iff in H as [? ?]
         | H : (_ =? _)%N = true |- _ => apply N.eqb_eq in H
         | H : (_ <=? _)%N = true |- _ => apply N.leb_le in H
         | H : existsb _ _ = true |- _ => simpl in H
         | H : false = true |- _ => discriminate H
         end;
  repeat (apply orb_false_iff; split);
  try (apply andb_false_iff);
  try (apply N.eqb_neq; lia);
  try (first [left; apply N.leb_gt; lia | right; apply N.leb_gt; lia]).
Qed.

Lemma dash_not_space c : isspace c = true → one_of [45; EN_DASH]%N c = false.
Proof.
  intros Hs. unfold one_of, EN_DASH. simpl.
  destruct (c =? 45)%N eqn:E1; [apply N.eqb_eq in E1; by subst|].
  destruct (c =? 8211)%N eqn:E2; [apply N.eqb_eq in E2; by subst|]. done.
Qed.

Lemma word_present_space c s :
  isspace c = true → word_prefix_i (py "present") (c :: s) = None.
Proof.
  intros Hs. cbn [py map list_ascii_of_string word_prefix_i].
  destruct (lit_i _ c) eqn:E; [|done].
  apply lit_i_not_space in E; [congruence|done].
Qed.

Lemma rmatch_cat {A} r1 r2 caps s (k : list str → str → option A) :
  rmatch (Cat r1 r2) caps s k
  = rmatch r1 caps s (λ caps' s', rmatch r2 caps' s' k).
Proof. done. Qed.

Lemma rmatch_chr {A} p caps s (k : list str → str → option A) :
  rmatch (Chr p) caps s k
  = match s with
    | c :: s' => if p c then k caps s' else None
    | [] => None
    end.
Proof. done. Qed.

Lemma rmatch_alt {A} r1 r2 caps s (k : list str → str → option A) :
  rmatch (Alt r1 r2) caps s k
  = match rmatch r1 caps s k with
    | Some x => Some x
    | None => rmatch r2 caps s k
    end.
Proof. done. Qed.

Lemma rmatch_grp {A} r caps s (k : list str → str → option A) :
  rmatch (Grp r) caps s k
  = rmatch r caps s
      (λ caps' s', k (caps' ++ [take (length s - length s') s]) s').
Proof. done. Qed.

(** The anchored year-range pattern computes [range_prefix]. *)
Lemma match_here_YEAR_RANGE s :
  match_here YEAR_RANGE s
  = match range_prefix s with
    | Some (g1, g2, rest) => Some ([g1; g2], rest)
    | None => None
    end.
Proof.
  unfold match_here, YEAR_RANGE, range_prefix.
  rewrite rmatch_cat, rmatch_group_digit4.
  destruct (digits4_prefix s) as [[g1 s1]|]; [|done].
  rewrite rmatch_cat, rmatch_spaces.
  2: { intros c s' Hs. by rewrite rmatch_cat, rmatch_chr, (dash_not_space c Hs). }
  rewrite rmatch_cat, rmatch_chr.
  destruct (lstrip s1) as [|d s3]; [done|].
  destruct (one_of _ d); [|done].
  rewrite rmatch_cat, rmatch_spaces.
  2: { intros c s' Hs. rewrite rmatch_grp, rmatch_alt, rmatch_digit4, rmatch_word_i.
       by rewrite (digits4_prefix_space c s' Hs), (word_present_space c s' Hs). }
  rewrite rmatch_grp, rmatch_alt, rmatch_digit4, rmatch_word_i.
  destruct (digits4_prefix (lstrip s3)) as [[g2 rest]|] eqn:E2.
  - apply digits4_prefix_app in E2 as [-> _]. by rewrite take_length_diff.
  - destruct (word_prefix_i _ (lstrip s3)) as [[g2 rest]|] eqn:E3; [|done].
    apply word_prefix_i_app in E3 as [-> _]. by rewrite take_length_diff.
Qed.

(** [\((\d{4})\)], read directly. *)
Lemma match_here_PAREN_YEAR s :
  match_here PAREN_YEAR s
  = match s with
    | c :: s1 =>
        if lit 40 c
        then match digits4_prefix s1 with
             | Some (g, d :: rest) => if lit 41 d then Some ([g], rest) else None
             | _ => None
             end
        else None
    | [] => None
    end.
Proof.
  unfold match_here, PAREN_YEAR. rewrite rmatch_cat, rmatch_chr.
  destruct s as [|c s1]; [done|]. destruct (lit 40 c); [|done].
  rewrite rmatch_cat, rmatch_group_digit4.
  destruct (digits4_prefix s1) as [[g [|d rest]]|]; done.
Qed.

(** ** The leftmost match *)

Lemma search_from_none r before s :
  search_from r before s = None ↔
  ∀ pre suf, s = pre ++ suf → match_here r suf = None.
Proof.
  revert before. induction s as [|c s IH]; intros before; simpl.
  - destruct (match_here r []) as [[caps rest]|] eqn:E.
    + split; [done|]. intros Hn. by rewrite (Hn [] []) in E.
    + split; [|done]. intros _ pre suf Heq.
      symmetry in Heq. apply app_eq_nil in Heq as [-> ->]. done.
  - destruct (match_here r (c :: s)) as [[caps rest]|] eqn:E.
    + split; [done|]. intros Hn. by rewrite (Hn [] (c :: s)) in E.
    + rewrite IH. split.
      * intros Hn [|x pre] suf Heq; simpl in Heq.
        -- by subst.
        -- injection Heq as -> ->. by eapply Hn.
      * intros Hn pre suf ->. by apply (Hn (c :: pre) suf).
Qed.

Lemma search_from_some r before s m :
  search_from r before s = Some m ↔
  ∃ pre suf caps rest,
    s = pre ++ suf ∧ match_here r suf = Some (caps, rest)
    ∧ (∀ pre1 suf1, s = pre1 ++ suf1 → length pre1 < length pre →
         match_here r suf1 = None)
    ∧ m = ReMatch (rev before ++ pre) (take (length suf - length rest) suf)
            caps rest.
Proof.
  revert before. induction s as [|c s IH]; intros before; simpl.
  - destruct (match_here r []) as [[caps rest]|] eqn:E.
    + split.
      * intros [= <-]. exists [], [], caps, rest.
        split; [done|]. split; [done|].
        split; [intros ? ? _ Hlt; simpl in Hlt; lia|]. by rewrite app_nil_r.
      * intros (pre & suf & caps' & rest' & Heq & Hm & _ & ->).
        symmetry in Heq. apply app_eq_nil in Heq as [-> ->].
        rewrite E in Hm. injection Hm as <- <-. by rewrite app_nil_r.
    + split; [done|].
      intros (pre & suf & caps' & rest' & Heq & Hm & _ & ->).
      symmetry in Heq. apply app_eq_nil in Heq as [-> ->]. congruence.
  - destruct (match_here r (c :: s)) as [[caps rest]|] eqn:E.
    + split.
      * intros [= <-]. exists [], (c :: s), caps, rest.
        split; [done|]. split; [done|].
        split; [intros ? ? _ Hlt; simpl in Hlt; lia|]. by rewrite app_nil_r.
      * intros (pre & suf & caps' & rest' & Heq & Hm & Hmin & ->).
        destruct pre as [|x pre].
        -- simpl in Heq. subst suf. rewrite E in Hm. injection Hm as <- <-.
           by rewrite app_nil_r.
        -- rewrite (Hmin [] (c :: s)) in E; [done|done|simpl; lia].
    + rewrite IH. split.
      * intros (pre & suf & caps' & rest' & -> & Hm & Hmin & ->).
        exists (c :: pre), suf, caps', rest'.
        split; [done|]. split; [done|]. split.
        -- intros [|x pre1] suf1 Heq Hlt; simpl in Heq.
           ++ by subst.
           ++ injection Heq as -> Heq. apply (Hmin pre1 suf1 Heq).
              simpl in Hlt. lia.
        -- simpl. by rewrite <- app_assoc.
      * intros (pre & suf & caps' & rest' & Heq & Hm & Hmin & ->).
        destruct pre as [|x pre].
        -- simpl in Heq. subst suf. congruence.
        -- simpl in Heq. injection Heq as -> ->.
           exists pre, suf, caps', rest'.
           split; [done|]. split; [done|]. split.
           ++ intros pre1 suf1 Heq Hlt. apply (Hmin (x :: pre1) suf1).
              ** by rewrite Heq.
              ** simpl. lia.
           ++ simpl. by rewrite <- app_assoc.
Qed.

End Regex.


Section Shapes.
Context `{PyEnv}.

Lemma digits4_prefix_spec s g rest :
  digits4_prefix s = Some (g, rest) ↔ s = g ++ rest ∧ year4 g.
Proof.
  unfold digits4_prefix, year4. split.
  - destruct s as [|a [|b [|c [|d r]]]]; try done.
    destruct (digit a) eqn:Ha, (digit b) eqn:Hb, (digit c) eqn:Hc,
      (digit d) eqn:Hd; try done.
    intros [= <- <-]. repeat split; try done. by repeat constructor.
  - intros [-> [Hlen Hg]].
    destruct g as [|a [|b [|c [|d [|? ?]]]]]; try done.
    apply Forall_cons in Hg as [Ha Hg]. apply Forall_cons in Hg as [Hb Hg].
    apply Forall_cons in Hg as [Hc Hg]. apply Forall_cons in Hg as [Hd _].
    simpl. by rewrite Ha, Hb, Hc, Hd.
Qed.

Lemma word_prefix_i_spec w s m rest :
  word_prefix_i w s = Some (m, rest) ↔
  s = m ++ rest ∧ Forall2 (λ c x, lit_i c x = true) w m.
Proof.
  revert s m. induction w as [|c w IH]; intros s m; simpl.
  - split.
    + intros [= <- <-]. split; [done|constructor].
    + intros [-> Hm]. by inversion Hm.
  - destruct s as [|x s].
    + split; [done|]. intros [Hs Hm]. inversion Hm; subst. done.
    + split.
      * destruct (lit_i c x) eqn:Hx; [|done].
        destruct (word_prefix_i w s) as [[m' r]|] eqn:E; [|done].
        intros [= <- <-]. apply IH in E as [-> Hm'].
        split; [done|]. by constructor.
      * intros [Hs Hm]. inversion Hm as [|? x' ? m' Hx Hm']; subst.
        injection Hs as -> ->. rewrite Hx.
        by rewrite (proj2 (IH (m' ++ rest) m') (conj eq_refl Hm')).
Qed.

Lemma lit_i_same_letter c x :
  c ∈ py "present" → lit_i c x = true ↔ same_letter c x.
Proof.
  intros Hc. unfold same_letter, LONG_S.
  assert (c = 112 ∨ c = 114 ∨ c = 101 ∨ c = 115 ∨ c = 110 ∨ c = 116)%N as Hcase.
  { cbn in Hc. set_solver. }
  clear Hc.
  destruct Hcase as [-> | [-> | [-> | [-> | [-> | ->]]]]].
  - change (lit_i 112 x) with ((x =? 112) || (x =? 80) || false)%N.
    rewrite orb_false_r, orb_true_iff, !N.eqb_eq. lia.
  - change (lit_i 114 x) with ((x =? 114) || (x =? 82) || false)%N.
    rewrite orb_false_r, orb_true_iff, !N.eqb_eq. lia.
  - change (lit_i 101 x) with ((x =? 101) || (x =? 69) || false)%N.
    rewrite orb_false_r, orb_true_iff, !N.eqb_eq. lia.
  - change (lit_i 115 x) with ((x =? 115) || (x =? 83) || ((x =? 383) || false))%N.
    rewrite orb_false_r, !orb_true_iff, !N.eqb_eq. lia.
  - change (lit_i 110 x) with ((x =? 110) || (x =? 78) || false)%N.
    rewrite orb_false_r, orb_true_iff, !N.eqb_eq. lia.
  - change (lit_i 116 x) with ((x =? 116) || (x =? 84) || false)%N.
    rewrite orb_false_r, orb_true_iff, !N.eqb_eq. lia.
Qed.

Lemma word_prefix_present_spec s g rest :
  word_prefix_i (py "present") s = Some (g, rest) ↔
  s = g ++ rest ∧ spells_present g.
Proof.
  rewrite word_prefix_i_spec. unfold spells_present.
  split; intros [-> Hg]; (split; [done|]).
  - apply Forall2_same_length_lookup. apply Forall2_same_length_lookup in Hg as [Hl Hg].
    split; [done|]. intros i c x Hc Hx. apply lit_i_same_letter; [|by eapply Hg].
    by eapply list_elem_of_lookup_2.
  - apply Forall2_same_length_lookup. apply Forall2_same_length_lookup in Hg as [Hl Hg].
    split; [done|]. intros i c x Hc Hx. apply lit_i_same_letter; [|by eapply Hg].
    by eapply list_elem_of_lookup_2.
Qed.

Lemma lstrip_app_spaces ws s : spaces ws → lstrip (ws ++ s) = lstrip s.
Proof.
  induction 1 as [|c ws Hc _ IH]; [done|]. simpl. by rewrite Hc.
Qed.

Lemma lstrip_decompose s : ∃ ws, s = ws ++ lstrip s ∧ spaces ws.
Proof.
  induction s as [|c s (ws & Hs & Hws)];
    [exists []; split; [done|constructor]|]. simpl.
  destruct (isspace c) eqn:Hc.
  - exists (c :: ws). split; [simpl; congruence|by constructor].
  - exists []. split; [done|constructor].
Qed.

Lemma lstrip_head s c s' : lstrip s = c :: s' → isspace c = false.
Proof.
  induction s as [|x s IH]; [done|]. simpl.
  destruct (isspace x) eqn:Hx; [done|]. by intros [= <- <-].
Qed.

Lemma lstrip_id c s : isspace c = false → lstrip (c :: s) = c :: s.
Proof. intros Hc. simpl. by rewrite Hc. Qed.

Lemma is_dash_one_of d : one_of [45; EN_DASH]%N d = true ↔ is_dash d.
Proof.
  unfold one_of, is_dash, EN_DASH. simpl.
  rewrite orb_false_r, orb_true_iff, !N.eqb_eq. done.
Qed.

Lemma year4_head g : year4 g → ∃ c g', g = c :: g' ∧ digit c = true.
Proof.
  intros [Hlen Hg]. destruct g as [|c g']; [done|].
  apply Forall_cons in Hg as [Hc _]. eauto.
Qed.

Lemma digit_ascii c :
  is_ascii c → digit c = ((48 <=? c) && (c <=? 57))%N.
Proof.
  intros Hc. unfold digit. rewrite (decimal_ascii c Hc).
  destruct (_ && _)%N.
  - apply bool_decide_eq_true. eauto.
  - apply bool_decide_eq_false. by intros [? ?].
Qed.

Lemma spells_present_head g :
  spells_present g → ∃ c g', g = c :: g' ∧ (c = 112 ∨ c = 80)%N.
Proof.
  intros Hg. unfold spells_present in Hg. cbn in Hg.
  inversion Hg as [|? c ? g' Hc _]; subst. exists c, g'. split; [done|].
  unfold same_letter in Hc. lia.
Qed.

Lemma spells_present_not_year g rest :
  spells_present g → digits4_prefix (g ++ rest) = None.
Proof.
  intros (c & g' & -> & Hc)%spells_present_head. unfold digits4_prefix. simpl.
  assert (digit c = false) as ->.
  { destruct Hc as [-> | ->]; by rewrite digit_ascii. }
  by destruct (g' ++ rest) as [|? [|? [|? ?]]].
Qed.

(** [range_prefix] finds exactly the ranges at the start of a text. *)
Lemma range_prefix_spec s g1 g2 rest :
  range_prefix s = Some (g1, g2, rest) ↔ range_at_start s g1 g2 rest.
Proof.
  unfold range_prefix, range_at_start. split.
  - destruct (digits4_prefix s) as [[g s1]|] eqn:E1; [|done].
    apply digits4_prefix_spec in E1 as [-> Hg].
    destruct (lstrip_decompose s1) as (ws1 & Hs1 & Hws1).
    destruct (lstrip s1) as [|d s3] eqn:El; [done|].
    destruct (one_of _ d) eqn:Hd; [|done]. apply is_dash_one_of in Hd.
    destruct (lstrip_decompose s3) as (ws2 & Hs3 & Hws2).
    destruct (digits4_prefix (lstrip s3)) as [[g' r]|] eqn:E2.
    + intros [= <- <- <-]. apply digits4_prefix_spec in E2 as [E2 Hg'].
      exists ws1, d, ws2. rewrite Hs1, Hs3 at 1. rewrite E2.
      repeat split; auto; try apply Hg; try apply Hg'.
    + destruct (word_prefix_i _ (lstrip s3)) as [[g' r]|] eqn:E3; [|done].
      intros [= <- <- <-]. apply word_prefix_present_spec in E3 as [E3 Hg'].
      exists ws1, d, ws2. rewrite Hs1, Hs3 at 1. rewrite E3.
      repeat split; auto; apply Hg.
  - intros (ws1 & d & ws2 & -> & Hg1 & Hws1 & Hd & Hws2 & Hg2).
    rewrite (proj2 (digits4_prefix_spec _ g1 _) (conj eq_refl Hg1)).
    rewrite lstrip_app_spaces by done.
    assert (isspace d = false) as Hds.
    { destruct Hd as [-> | ->]; done. }
    cbn [app]. rewrite lstrip_id by done.
    rewrite (proj2 (is_dash_one_of d) Hd).
    rewrite lstrip_app_spaces by done.
    destruct Hg2 as [Hg2|Hg2].
    + destruct (year4_head g2 Hg2) as (c & g' & -> & Hc).
      assert (isspace c = false) as Hcs.
      { destruct (isspace c) eqn:Hs; [|done].
        by rewrite (digit_not_space c Hs) in Hc. }
      cbn [app]. rewrite lstrip_id by done.
      change (c :: g' ++ rest) with ((c :: g') ++ rest).
      by rewrite (proj2 (digits4_prefix_spec _ (c :: g') _) (conj eq_refl Hg2)).
    + destruct (spells_present_head g2 Hg2) as (c & g' & -> & Hc).
      assert (isspace c = false) as Hcs.
      { destruct Hc as [-> | ->]; done. }
      cbn [app]. rewrite lstrip_id by done.
      change (c :: g' ++ rest) with ((c :: g') ++ rest).
      rewrite (spells_present_not_year _ rest Hg2).
      by rewrite (proj2 (word_prefix_present_spec _ (c :: g') _)
                    (conj eq_refl Hg2)).
Qed.

Lemma match_here_range suf caps rest :
  match_here YEAR_RANGE suf = Some (caps, rest) ↔
  ∃ g1 g2, caps = [g1; g2] ∧ range_at_start suf g1 g2 rest.
Proof.
  rewrite match_here_YEAR_RANGE. split.
  - destruct (range_prefix suf) as [[[g1 g2] r]|] eqn:E; [|done].
    intros [= <- <-]. exists g1, g2. split; [done|]. by apply range_prefix_spec.
  - intros (g1 & g2 & -> & Hr%range_prefix_spec). by rewrite Hr.
Qed.

Lemma match_here_paren suf caps rest :
  match_here PAREN_YEAR suf = Some (caps, rest) ↔
  ∃ g, caps = [g] ∧ paren_year_at_start suf g rest.
Proof.
  rewrite match_here_PAREN_YEAR. unfold paren_year_at_start, lit. split.
  - destruct suf as [|c s1]; [done|].
    destruct (40 =? c)%N eqn:Hc; [|done]. apply N.eqb_eq in Hc as <-.
    destruct (digits4_prefix s1) as [[g [|d r]]|] eqn:E; try done.
    destruct (41 =? d)%N eqn:Hd; [|done]. apply N.eqb_eq in Hd as <-.
    intros [= <- <-]. apply digits4_prefix_spec in E as [-> Hg].
    exists g. split; [done|]. split; [done|exact Hg].
  - intros (g & -> & -> & Hg). simpl.
    by rewrite (proj2 (digits4_prefix_spec _ g _) (conj eq_refl Hg)).
Qed.

(** A shape a pattern recognises, and what [re.search] returns. *)
Lemma re_search_first {A} r (P : str → A → Prop) (grp : A → list str)
    text a :
  (∀ suf caps rest, match_here r suf = Some (caps, rest) →
     ∃ a, caps = grp a ∧ P suf a) →
  (∀ suf a, P suf a → ∃ rest, match_here r suf = Some (grp a, rest)) →
  first_at P text a →
  ∃ m, re_search r text = Some m ∧ m_groups m = grp a.
Proof.
  intros Hsound Hcomplete (pre & suf & -> & Ha & Hmin).
  destruct (Hcomplete suf a Ha) as [rest Hm].
  exists (ReMatch pre (take (length suf - length rest) suf) (grp a) rest).
  split; [|done]. apply search_from_some.
  exists pre, suf, (grp a), rest.
  split; [done|]. split; [done|]. split; [|done].
  intros pre1 suf1 Heq Hlt.
  destruct (match_here r suf1) as [[caps1 rest1]|] eqn:E; [|done].
  destruct (Hsound suf1 caps1 rest1 E) as (a1 & _ & Ha1).
  by destruct (Hmin pre1 suf1 a1 Heq Hlt).
Qed.

Lemma re_search_nowhere {A} r (P : str → A → Prop) (grp : A → list str) text :
  (∀ suf caps rest, match_here r suf = Some (caps, rest) →
     ∃ a, caps = grp a ∧ P suf a) →
  nowhere P text → re_search r text = None.
Proof.
  intros Hsound Hno. apply search_from_none. intros pre suf Heq.
  destruct (match_here r suf) as [[caps rest]|] eqn:E; [|done].
  destruct (Hsound suf caps rest E) as (a & _ & Ha).
  by destruct (Hno pre suf a Heq).
Qed.

Lemma range_sound suf caps rest :
  match_here YEAR_RANGE suf = Some (caps, rest) →
  ∃ g : str * str, caps = [g.1; g.2] ∧ range_shape suf g.
Proof.
  intros (g1 & g2 & -> & Hr)%match_here_range. exists (g1, g2).
  split; [done|]. by exists rest.
Qed.

Lemma range_complete suf (g : str * str) :
  range_shape suf g → ∃ rest, match_here YEAR_RANGE suf = Some ([g.1; g.2], rest).
Proof.
  intros [rest Hr]. exists rest. apply match_here_range. eauto.
Qed.

Lemma paren_sound suf caps rest :
  match_here PAREN_YEAR suf = Some (caps, rest) →
  ∃ g : str, caps = [g] ∧ paren_year_shape suf g.
Proof.
  intros (g & -> & Hr)%match_here_paren. exists g. split; [done|]. by exists rest.
Qed.

Lemma paren_complete suf (g : str) :
  paren_year_shape suf g → ∃ rest, match_here PAREN_YEAR suf = Some ([g], rest).
Proof.
  intros [rest Hr]. exists rest. apply match_here_paren. eauto.
Qed.

(** What [extract_years_from_context] returns, by the shapes in the text. *)
Lemma extract_years_range text g1 g2 :
  first_at range_shape text (g1, g2) →
  extract_years_from_context text = Some (g1 ++ py "-" ++ g2).
Proof.
  intros Hf. unfold extract_years_from_context.
  destruct (re_search_first YEAR_RANGE range_shape (λ g, [g.1; g.2]) text
              (g1, g2) range_sound range_complete Hf) as (m & -> & Hm).
  unfold group. by rewrite Hm.
Qed.

Lemma extract_years_paren text g :
  nowhere range_shape text → first_at paren_year_shape text g →
  extract_years_from_context text = Some g.
Proof.
  intros Hno Hf. unfold extract_years_from_context.
  rewrite (re_search_nowhere YEAR_RANGE range_shape (λ g, [g.1; g.2]) text
             range_sound Hno).
  destruct (re_search_first PAREN_YEAR paren_year_shape (λ g, [g]) text g
              paren_sound paren_complete Hf) as (m & -> & Hm).
  unfold group. by rewrite Hm.
Qed.

Lemma extract_years_none text :
  nowhere range_shape text → nowhere paren_year_shape text →
  extract_years_from_context text = None.
Proof.
  intros Hno Hno'. unfold extract_years_from_context.
  rewrite (re_search_nowhere YEAR_RANGE range_shape (λ g, [g.1; g.2]) text
             range_sound Hno).
  by rewrite (re_search_nowhere PAREN_YEAR paren_year_shape (λ g, [g]) text
                paren_sound Hno').
Qed.

End Shapes.


Section ShapesCheck.
Context `{PyEnv}.

(** The converse readings, to find a shape by running the search. *)
Lemma nowhere_of_search {A} r (P : str → A → Prop) (grp : A → list str) text :
  (∀ suf a, P suf a → ∃ rest, match_here r suf = Some (grp a, rest)) →
  re_search r text = None → nowhere P text.
Proof.
  intros Hcomplete Hs pre suf a Heq Ha.
  destruct (Hcomplete suf a Ha) as [rest Hm].
  by rewrite (proj1 (search_from_none r [] text) Hs pre suf Heq) in Hm.
Qed.

Lemma first_at_of_search {A} r (P : str → A → Prop) (grp : A → list str)
    text a m :
  (∀ suf caps rest, match_here r suf = Some (caps, rest) →
     ∃ a, caps = grp a ∧ P suf a) →
  (∀ suf a, P suf a → ∃ rest, match_here r suf = Some (grp a, rest)) →
  (∀ a b, grp a = grp b → a = b) →
  re_search r text = Some m → m_groups m = grp a → first_at P text a.
Proof.
  intros Hsound Hcomplete Hinj Hs Hg.
  apply search_from_some in Hs as (pre & suf & caps & rest & -> & Hm & Hmin & ->).
  simpl in Hg. subst caps.
  destruct (Hsound suf _ rest Hm) as (a' & Ha' & HP).
  apply Hinj in Ha' as <-.
  exists pre, suf. split; [done|]. split; [done|].
  intros pre1 suf1 a1 Heq Hlt Ha1.
  destruct (Hcomplete suf1 a1 Ha1) as [rest1 Hm1].
  by rewrite (Hmin pre1 suf1 Heq Hlt) in Hm1.
Qed.

Lemma first_range_of_search text m g1 g2 :
  re_search YEAR_RANGE text = Some m → m_groups m = [g1; g2] →
  first_at range_shape text (g1, g2).
Proof.
  apply (first_at_of_search YEAR_RANGE range_shape (λ g, [g.1; g.2]) text
           (g1, g2) m range_sound range_complete).
  intros [a1 a2] [b1 b2]. simpl. congruence.
Qed.

Lemma no_range_of_search text :
  re_search YEAR_RANGE text = None → nowhere range_shape text.
Proof.
  apply (nowhere_of_search YEAR_RANGE range_shape (λ g, [g.1; g.2]) text
           range_complete).
Qed.

Lemma first_paren_of_search text m g :
  re_search PAREN_YEAR text = Some m → m_groups m = [g] →
  first_at paren_year_shape text g.
Proof.
  apply (first_at_of_search PAREN_YEAR paren_year_shape (λ g, [g]) text g m
           paren_sound paren_complete).
  intros a b. congruence.
Qed.

Lemma no_paren_of_search text :
  re_search PAREN_YEAR text = None → nowhere paren_year_shape text.
Proof.
  apply (nowhere_of_search PAREN_YEAR paren_year_shape (λ g, [g]) text
           paren_complete).
Qed.

(** A text without a digit has no years to extract. *)
Lemma range_shape_digit suf g : range_shape suf g → ∃ c s, suf = c :: s ∧ digit c = true.
Proof.
  intros (rest & ws1 & d & ws2 & -> & Hg1 & _).
  destruct (year4_head _ Hg1) as (c & g' & -> & Hc). eauto.
Qed.

Lemma paren_year_shape_digit suf g :
  paren_year_shape suf g → ∃ p c s, suf = p :: c :: s ∧ digit c = true.
Proof.
  intros (rest & -> & Hg).
  destruct (year4_head _ Hg) as (c & g' & -> & Hc). simpl. eauto.
Qed.

Lemma no_digit_no_years text :
  Forall (λ c, digit c = false) text →
  extract_years_from_context text = None.
Proof.
  intros Hd. rewrite Forall_forall in Hd. apply extract_years_none.
  - intros pre suf g -> (c & s & -> & Hc)%range_shape_digit.
    rewrite Hd in Hc; [done|]. rewrite elem_of_app, elem_of_cons. auto.
  - intros pre suf g -> (p & c & s & -> & Hc)%paren_year_shape_digit.
    rewrite Hd in Hc; [done|]. rewrite elem_of_app, !elem_of_cons. auto.
Qed.

Lemma manual_years :
  extract_years_from_context (py "Son and coaching protege of Gary Kubiak")
  = None.
Proof.
  apply no_digit_no_years. apply Forall_forall. intros c Hc.
  assert (is_ascii c ∧ ((48 <=? c) && (c <=? 57))%N = false) as [Ha Hb].
  { cbn in Hc. rewrite !elem_of_cons in Hc. rewrite elem_of_nil in Hc.
    unfold is_ascii.
    repeat (destruct Hc as [-> | Hc]; [split; [lia|done]|]). done. }
  by rewrite digit_ascii.
Qed.

End ShapesCheck.

Section ConnectionYears.
Context `{PyEnv}.

(** What the tree loops append. *)
Lemma tree_connection_years src tgt ctx :
  years_from_context
    (Connection src tgt coaching_tree (extract_years_from_context ctx)
       (if nonempty ctx then Some (take 300 ctx) else None)).
Proof. by exists ctx. Qed.

Lemma crawl_add_member_years max_depth coach_id depth st m :
  Forall (λ c, ctype c = coaching_tree → years_from_context c)
    (Crawl.conn_list st) →
  Forall (λ c, ctype c = coaching_tree → years_from_context c)
    (Crawl.conn_list (Crawl.add_member max_depth coach_id depth st m)).
Proof.
  intros Hst. destruct m as [[[linked_name linked_page] rel] ctx].
  unfold Crawl.add_member.
  destruct (decide (rel = mentor)); simpl;
    (destruct (bool_decide _ && bool_decide _); [|done]);
    apply Forall_app; (split; [done|]); apply Forall_singleton;
    intros _; apply tree_connection_years.
Qed.

Lemma crawl_add_members_years max_depth coach_id depth ms st :
  Forall (λ c, ctype c = coaching_tree → years_from_context c)
    (Crawl.conn_list st) →
  Forall (λ c, ctype c = coaching_tree → years_from_context c)
    (Crawl.conn_list (foldl (Crawl.add_member max_depth coach_id depth) st ms)).
Proof.
  revert st. induction ms as [|m ms IH]; intros st Hst; simpl; [done|].
  by apply IH, crawl_add_member_years.
Qed.

Lemma crawl_step_years max_depth max_pages net st ev st' :
  Forall (λ c, ctype c = coaching_tree → years_from_context c)
    (Crawl.conn_list st) →
  Crawl.step max_depth max_pages net st = Crawl.Continue ev st' →
  Forall (λ c, ctype c = coaching_tree → years_from_context c)
    (Crawl.conn_list st').
Proof.
  intros Hst. unfold Crawl.step.
  destruct (Crawl.queue st) as [|[[[name page] team] cur] queue']; [done|].
  destruct (negb _); [done|]. case_bool_decide.
  { by intros [= <- <-]. }
  destruct (Crawl.fetch_page_html _) as [[|c html]|].
  - by intros [= <- <-].
  - destruct (Crawl.parse_career_history _) as [career|e]; [|done].
    intros [= <- <-]. by apply crawl_add_members_years.
  - by intros [= <- <-].
Qed.

Lemma overlap_years cid_a cid_b ca cb acc :
  Forall (λ c, ctype c = coaching_tree → years_from_context c) acc.1 →
  Forall (λ c, ctype c = coaching_tree → years_from_context c)
    (Crawl.overlap cid_a cid_b ca cb acc).1.
Proof.
  destruct acc as [l S]. intros Hl. unfold Crawl.overlap.
  destruct (_ && _); [|done]. destruct (_ <=? _)%Z; [|done].
  destruct (bool_decide _ && bool_decide _); [|done].
  simpl. apply Forall_app. split; [done|]. by apply Forall_singleton.
Qed.

Lemma foldl_first {A B C} (P : B → Prop) (f : B * C → A → B * C) xs acc :
  (∀ acc x, P acc.1 → P (f acc x).1) → P acc.1 → P (foldl f acc xs).1.
Proof.
  intros Hf. revert acc. induction xs as [|x xs IH]; intros acc Hacc; simpl;
    [done|]. by apply IH, Hf.
Qed.

Lemma cross_reference_years career_data acc :
  Forall (λ c, ctype c = coaching_tree → years_from_context c) acc.1 →
  Forall (λ c, ctype c = coaching_tree → years_from_context c)
    (Crawl.cross_reference career_data acc).1.
Proof.
  revert acc. induction career_data as [|[cid_a career_a] others IH];
    intros acc Hacc; simpl; [done|].
  apply IH. apply (foldl_first (Forall _)); [|done].
  intros acc1 [cid_b career_b] H1. apply (foldl_first (Forall _)); [|done].
  intros acc2 ca H2. apply (foldl_first (Forall _)); [|done].
  intros acc3 cb H3. by apply overlap_years.
Qed.

Lemma crawl_years max_depth max_pages net seeds requests fuel evs d :
  Crawl.crawl max_depth max_pages net seeds requests fuel = (evs, Some (Ok d)) →
  Forall (λ c, ctype c = coaching_tree → years_from_context c) (connections d).
Proof.
  intros (st & Hl & ->)%crawl_ok. unfold Crawl.finish. cbn [connections].
  apply Forall_list_filter.
  apply (cross_reference_years _ (Crawl.conn_list st, Crawl.connection_set st)).
  simpl.
  apply (loop_invariant max_depth max_pages net
           (λ st, Forall (λ c, ctype c = coaching_tree → years_from_context c)
                    (Crawl.conn_list st)))
    with (fuel := fuel) (st := Crawl.seed_state seeds requests) (evs := evs);
    [|constructor|exact Hl].
  intros st0 ev st1. apply crawl_step_years.
Qed.

Lemma klint_add_member_years st m :
  Forall years_from_context (PatchKlint.new_connections st) →
  Forall years_from_context
    (PatchKlint.new_connections (PatchKlint.add_member st m)).
Proof.
  intros Hst. destruct m as [[[linked_name linked_page] rel] ctx].
  unfold PatchKlint.add_member.
  destruct (decide (rel = mentor)); simpl;
    (destruct (bool_decide _ && bool_decide _); [|done]);
    apply Forall_app; (split; [done|]); apply Forall_singleton;
    apply tree_connection_years.
Qed.

Lemma klint_add_manual_years st :
  Forall years_from_context (PatchKlint.new_connections st) →
  Forall years_from_context
    (PatchKlint.new_connections (foldl PatchKlint.add_manual st PatchKlint.manual)).
Proof.
  intros Hst. unfold PatchKlint.manual. cbn [foldl]. unfold PatchKlint.add_manual.
  destruct (bool_decide _ && bool_decide _); [|done].
  cbn [PatchKlint.new_connections]. apply Forall_app. split; [done|].
  apply Forall_singleton.
  exists (py "Son and coaching protege of Gary Kubiak").
  split; [by rewrite manual_years|done].
Qed.

Lemma klint_years data o d :
  PatchKlint.main data o = Ok d →
  ∀ c, c ∈ connections d → c ∈ connections data ∨ years_from_context c.
Proof.
  unfold PatchKlint.main.
  destruct (PatchKlint.fetch_page_html o) as [html|e]; [|done].
  unfold mbind, result_bind.
  set (base := List.filter _ (connections data)).
  set (st0 := PatchKlint.Merge _ [] _ _).
  assert (∀ st d,
    Forall years_from_context (PatchKlint.new_connections st) →
    Ok (Dataset (PatchKlint.m_coaches (foldl PatchKlint.add_manual st PatchKlint.manual))
          (base ++ PatchKlint.new_connections (foldl PatchKlint.add_manual st PatchKlint.manual))
          (team_colors data)) = Ok d →
    ∀ c, c ∈ connections d → c ∈ connections data ∨ years_from_context c)
    as Hfin.
  { intros st d' Hst Heq c Hc.
    assert (connections d'
            = base ++ PatchKlint.new_connections
                        (foldl PatchKlint.add_manual st PatchKlint.manual)) as Hd
      by (by injection Heq as <-).
    rewrite Hd in Hc. apply elem_of_app in Hc as [Hc|Hc].
    - left. by apply elem_of_list_filter in Hc as [Hc _].
    - right. apply klint_add_manual_years in Hst.
      rewrite Forall_forall in Hst. auto. }
  assert (∀ ms st,
    Forall years_from_context (PatchKlint.new_connections st) →
    Forall years_from_context
      (PatchKlint.new_connections (foldl PatchKlint.add_member st ms)))
    as Hmem.
  { induction ms as [|m ms IH]; intros st Hst; simpl; [done|].
    by apply IH, klint_add_member_years. }
  destruct html as [[|c text]|].
  - apply Hfin. constructor.
  - destruct (PatchKlint.parse_infobox_career _) as [career|e]; [|done].
    apply Hfin, Hmem. constructor.
  - apply Hfin. constructor.
Qed.

End ConnectionYears.

(** C10. The years of a coaching_tree connection are read off the context
    text of its list item: the first year range in the text -- four
    digits, a hyphen or an en dash, and four digits or the word [present]
    in any letter case, with optional whitespace around the dash -- gives
    the two parts joined by an ASCII hyphen; without a range, the first
    four digits in parentheses give that year; otherwise there are no
    years.  Each such connection of a crawl, and each connection the Klint
    Kubiak patch adds, carries the years so read. *)
Theorem years_of_connection `{PyEnv} :
  (∀ text g1 g2,
     first_at range_shape text (g1, g2) →
     extract_years_from_context text = Some (g1 ++ py "-" ++ g2))
  ∧ (∀ text g,
       nowhere range_shape text → first_at paren_year_shape text g →
       extract_years_from_context text = Some g)
  ∧ (∀ text,
       nowhere range_shape text → nowhere paren_year_shape text →
       extract_years_from_context text = None)
  ∧ (∀ max_depth max_pages net seeds requests fuel evs d c,
       Crawl.crawl max_depth max_pages net seeds requests fuel
         = (evs, Some (Ok d)) →
       c ∈ connections d → ctype c = coaching_tree →
       years_from_context c)
  ∧ (∀ data o d c,
       PatchKlint.main data o = Ok d →
       c ∈ connections d → c ∈ connections data ∨ years_from_context c).
Proof.
  split; [|split; [|split; [|split]]].
  - apply extract_years_range.
  - apply extract_years_paren.
  - apply extract_years_none.
  - intros max_depth max_pages net seeds requests fuel evs d c Hc Hin.
    apply crawl_years in Hc. rewrite Forall_forall in Hc. by apply Hc.
  - intros data o d c Hm. by apply (klint_years data o).
Qed.

Lemma years_of_connection_witness :
  @extract_years_from_context toy_env (py "Bill Walsh(1992-1998)")
    = Some (py "1992" ++ py "-" ++ py "1998")
  ∧ @extract_years_from_context toy_env (py "Hired (1998)") = Some (py "1998")
  ∧ @extract_years_from_context toy_env (py "Bill Walsh") = None
  ∧ @years_from_context toy_env
      (Connection (py "bill-walsh") (py "andy-reid") coaching_tree
         (Some (py "1992-1998")) (Some (py "Bill Walsh(1992-1998)")))
  ∧ (Connection (py "bill-walsh") (py "klint-kubiak") coaching_tree
       (Some (py "1992-1998")) (Some (py "Bill Walsh(1992-1998)"))
       ∈ connections (Dataset [] [gary_klint] [])
     ∨ @years_from_context toy_env
         (Connection (py "bill-walsh") (py "klint-kubiak") coaching_tree
            (Some (py "1992-1998")) (Some (py "Bill Walsh(1992-1998)")))).
Proof.
  pose proof (@years_of_connection toy_env)
    as (Hrange & Hparen & Hnone & Hcrawl & Hklint).
  split; [|split; [|split; [|split]]].
  - apply Hrange.
    apply (@first_range_of_search toy_env _
             (ReMatch (py "Bill Walsh(") (py "1992-1998")
                [py "1992"; py "1998"] (py ")")));
      vm_compute; reflexivity.
  - apply Hparen.
    + apply (@no_range_of_search toy_env). vm_compute. reflexivity.
    + apply (@first_paren_of_search toy_env _
               (ReMatch (py "Hired ") (py "(1998)") [py "1998"] []));
        vm_compute; reflexivity.
  - apply Hnone.
    + apply (@no_range_of_search toy_env). vm_compute. reflexivity.
    + apply (@no_paren_of_search toy_env). vm_compute. reflexivity.
  - apply (Hcrawl 5 300 toy_net toy_seeds 0 10 toy_run.1 toy_dataset).
    + vm_compute. reflexivity.
    + apply list_elem_of_here.
    + reflexivity.
  - apply (Hklint (Dataset [] [gary_klint] []) (toy_net 0 []) toy_patched).
    + vm_compute. reflexivity.
    + apply list_elem_of_here.
Defined.

(* ===================================================================== *)
(** * Successive matches                                                  *)
(* ===================================================================== *)

Section Finditer.
Context `{PyEnv}.


Lemma search_consuming r s m :
  consuming r → re_search r s = Some m →
  ∃ c t, m_text m = c :: t ∧ s = m_before m ++ m_text m ++ m_after m.
Proof.
  intros Hr (pre & suf & caps & rest & -> & Hm & _ & ->)%search_from_some.
  destruct (Hr suf caps rest Hm) as (c & t & ->).
  cbn [m_text m_before m_after rev app].
  change (c :: t ++ rest) with ((c :: t) ++ rest).
  rewrite take_length_diff. eauto.
Qed.

Lemma finditer_aux_unfold r fuel s :
  consuming r →
  finditer_aux (S fuel) r s
  = match re_search r s with
    | None => []
    | Some m => m :: finditer_aux fuel r (m_after m)
    end.
Proof.
  intros Hr. simpl. destruct (re_search r s) as [m|] eqn:E; [|done].
  destruct (search_consuming r s m Hr E) as (c & t & -> & _). done.
Qed.

Lemma finditer_aux_fuel r fuel fuel' s :
  consuming r → length s < fuel → length s < fuel' →
  finditer_aux fuel r s = finditer_aux fuel' r s.
Proof.
  intros Hr. revert fuel' s. induction fuel as [|fuel IH]; intros fuel' s Hf Hf';
    [lia|].
  destruct fuel' as [|fuel']; [lia|]. rewrite !finditer_aux_unfold by done.
  destruct (re_search r s) as [m|] eqn:E; [|done].
  destruct (search_consuming r s m Hr E) as (c & t & Ht & Hs).
  f_equal. apply IH.
  - rewrite Hs, Ht in Hf. rewrite !length_app in Hf. simpl in Hf. lia.
  - rewrite Hs, Ht in Hf'. rewrite !length_app in Hf'. simpl in Hf'. lia.
Qed.

(** The matches of a text: the leftmost one, then those of what follows. *)
Lemma finditer_step r s :
  consuming r →
  finditer r s
  = match re_search r s with
    | None => []
    | Some m => m :: finditer r (m_after m)
    end.
Proof.
  intros Hr. unfold finditer. rewrite finditer_aux_unfold by done.
  destruct (re_search r s) as [m|] eqn:E; [|done].
  destruct (search_consuming r s m Hr E) as (c & t & Ht & Hs).
  f_equal. apply finditer_aux_fuel; [done| |lia].
  rewrite Hs, Ht, !length_app. simpl. lia.
Qed.

Lemma consuming_YEAR_RANGE : consuming YEAR_RANGE.
Proof.
  unfold consuming. intros suf caps rest (g1 & g2 & -> & Hr)%match_here_range.
  destruct Hr as (ws1 & d & ws2 & -> & Hg1 & _).
  destruct (year4_head _ Hg1) as (c & g' & -> & _).
  exists c, (g' ++ ws1 ++ [d] ++ ws2 ++ g2). simpl. f_equal.
  rewrite <- !app_assoc. simpl. by rewrite <- !app_assoc.
Qed.

Lemma match_here_digit4 suf caps rest :
  match_here digit4 suf = Some (caps, rest) ↔
  caps = [] ∧ ∃ g, suf = g ++ rest ∧ year4 g.
Proof.
  unfold match_here. rewrite rmatch_digit4. split.
  - destruct (digits4_prefix suf) as [[g r]|] eqn:E; [|done].
    intros [= <- <-]. split; [done|]. exists g. by apply digits4_prefix_spec.
  - intros [-> (g & -> & Hg)].
    by rewrite (proj2 (digits4_prefix_spec _ g _) (conj eq_refl Hg)).
Qed.

Lemma match_here_group_digit4 suf caps rest :
  match_here (Grp digit4) suf = Some (caps, rest) ↔
  ∃ g, caps = [g] ∧ suf = g ++ rest ∧ year4 g.
Proof.
  unfold match_here. rewrite rmatch_group_digit4. split.
  - destruct (digits4_prefix suf) as [[g r]|] eqn:E; [|done].
    intros [= <- <-]. exists g. split; [done|]. by apply digits4_prefix_spec.
  - intros (g & -> & -> & Hg).
    by rewrite (proj2 (digits4_prefix_spec _ g _) (conj eq_refl Hg)).
Qed.

Lemma consuming_digit4 : consuming digit4.
Proof.
  unfold consuming. intros suf caps rest [_ (g & -> & Hg)]%match_here_digit4.
  destruct (year4_head _ Hg) as (c & g' & -> & _). by exists c, g'.
Qed.

Lemma consuming_group_digit4 : consuming (Grp digit4).
Proof.
  unfold consuming. intros suf caps rest (g & _ & -> & Hg)%match_here_group_digit4.
  destruct (year4_head _ Hg) as (c & g' & -> & _). by exists c, g'.
Qed.

Lemma match_here_class p suf caps rest :
  match_here (Chr p) suf = Some (caps, rest) ↔
  caps = [] ∧ ∃ c, suf = c :: rest ∧ p c = true.
Proof.
  unfold match_here. rewrite rmatch_chr. split.
  - destruct suf as [|c s]; [done|]. destruct (p c) eqn:Hc; [|done].
    intros [= <- <-]. eauto.
  - intros [-> (c & -> & ->)]. done.
Qed.

Lemma consuming_class p : consuming (Chr p).
Proof.
  unfold consuming. intros suf caps rest [_ (c & -> & _)]%match_here_class.
  by exists c, [].
Qed.

Lemma no_earlier_class p pre suf :
  (∀ pre1 suf1, pre ++ suf = pre1 ++ suf1 → length pre1 < length pre →
     match_here (Chr p) suf1 = None) →
  Forall (λ x, p x = false) pre.
Proof.
  induction pre as [|x pre IH]; intros Hmin; constructor.
  - specialize (Hmin [] ((x :: pre) ++ suf) eq_refl). simpl in Hmin.
    unfold match_here in Hmin. rewrite rmatch_chr in Hmin.
    destruct (p x); [|done]. discriminate Hmin. lia.
  - apply IH. intros pre1 suf1 Heq Hlt. apply (Hmin (x :: pre1) suf1).
    + simpl. by rewrite Heq.
    + simpl. lia.
Qed.

Lemma re_search_class_some p s m :
  re_search (Chr p) s = Some m →
  ∃ pre c rest,
    s = pre ++ c :: rest ∧ Forall (λ x, p x = false) pre ∧ p c = true
    ∧ m = ReMatch pre [c] [] rest.
Proof.
  intros (pre & suf & caps & rest & -> & Hm & Hmin & ->)%search_from_some.
  apply match_here_class in Hm as [-> (c & -> & Hc)].
  exists pre, c, rest. split; [done|]. split; [by eapply no_earlier_class|].
  split; [done|]. simpl. do 2 f_equal.
  replace (S (length rest) - length rest) with 1 by lia. done.
Qed.

Lemma re_search_class_none p s :
  re_search (Chr p) s = None → Forall (λ x, p x = false) s.
Proof.
  intros Hs. apply Forall_forall. intros x (pre & suf & ->)%list_elem_of_split.
  pose proof (proj1 (search_from_none _ _ _) Hs pre (x :: suf) eq_refl) as Hm.
  unfold match_here in Hm. rewrite rmatch_chr in Hm. by destruct (p x).
Qed.

Lemma filter_all_false {A} (f : A → bool) l :
  Forall (λ x, f x = false) l → List.filter (λ x, negb (f x)) l = l.
Proof.
  induction 1 as [|x l Hx _ IH]; [done|]. simpl. by rewrite Hx, IH.
Qed.

(** [re.sub] of a single-character class by the empty string deletes the
    characters of the class. *)
Lemma re_sub_class p s :
  re_sub (Chr p) [] s = List.filter (λ c, negb (p c)) s.
Proof.
  remember (length s) as n eqn:Hn. revert s Hn.
  induction n as [n IH] using lt_wf_ind. intros s ->.
  unfold re_sub. rewrite finditer_step by apply consuming_class.
  destruct (re_search (Chr p) s) as [m|] eqn:E.
  - apply re_search_class_some in E as (pre & c & rest & -> & Hpre & Hc & ->).
    cbn [sub_pieces m_before m_after app].
    change (sub_pieces [] (finditer (Chr p) rest) rest)
      with (re_sub (Chr p) [] rest).
    rewrite (IH (length rest)); [|rewrite length_app; simpl; lia|done].
    rewrite List.filter_app. simpl. rewrite Hc. simpl.
    by rewrite (filter_all_false p pre Hpre).
  - apply re_search_class_none in E. simpl. by rewrite (filter_all_false p s E).
Qed.

End Finditer.

(* ===================================================================== *)
(** * The cells of the infobox (C6, C7)                                   *)
(* ===================================================================== *)


Section Cells.
Context `{PyEnv}.

Lemma re_split_first r text :
  consuming r →
  nth 0 (re_split r text) []
  = match re_search r text with
    | Some m => m_before m
    | None => text
    end.
Proof.
  intros Hr. unfold re_split. rewrite finditer_step by done.
  by destruct (re_search r text).
Qed.

Lemma year_sound suf caps rest :
  match_here digit4 suf = Some (caps, rest) →
  ∃ g : str, caps = [] ∧ year_shape suf g.
Proof.
  intros [-> (g & -> & Hg)]%match_here_digit4. exists g. split; [done|].
  by exists rest.
Qed.

Lemma year_complete suf (g : str) :
  year_shape suf g → ∃ rest, match_here digit4 suf = Some ([], rest).
Proof.
  intros (rest & -> & Hg). exists rest. apply match_here_digit4. eauto.
Qed.

Lemma year_group_sound suf caps rest :
  match_here (Grp digit4) suf = Some (caps, rest) →
  ∃ g : str, caps = [g] ∧ year_shape suf g.
Proof.
  intros (g & -> & -> & Hg)%match_here_group_digit4. exists g.
  split; [done|]. by exists rest.
Qed.

Lemma year_group_complete suf (g : str) :
  year_shape suf g → ∃ rest, match_here (Grp digit4) suf = Some ([g], rest).
Proof.
  intros (rest & -> & Hg). exists rest. apply match_here_group_digit4. eauto.
Qed.

(** The text before the first match of [\d{4}]. *)
Lemma split_before_first_year text pre :
  before_first_year text pre → nth 0 (re_split digit4 text) [] = pre.
Proof.
  intros (suf & g & -> & Hg & Hmin).
  rewrite re_split_first by apply consuming_digit4.
  destruct (year_complete suf g Hg) as [rest Hm].
  assert (re_search digit4 (pre ++ suf)
          = Some (ReMatch pre (take (length suf - length rest) suf) [] rest))
    as ->; [|done].
  apply search_from_some. exists pre, suf, [], rest.
  split; [done|]. split; [done|]. split; [|done].
  intros pre1 suf1 Heq Hlt.
  destruct (match_here digit4 suf1) as [[caps1 rest1]|] eqn:E; [|done].
  destruct (year_sound suf1 caps1 rest1 E) as (a & _ & Ha).
  by destruct (Hmin pre1 suf1 a Heq Hlt).
Qed.

Lemma split_no_year text :
  nowhere year_shape text → nth 0 (re_split digit4 text) [] = text.
Proof.
  intros Hno. rewrite re_split_first by apply consuming_digit4.
  by rewrite (re_search_nowhere digit4 year_shape (λ _, []) text year_sound Hno).
Qed.

Lemma team_text_before_year text pre :
  before_first_year text pre →
  team_text text = strip (remove_parens (strip pre)).
Proof.
  intros Hpre. unfold team_text, PARENS.
  by rewrite (split_before_first_year text pre Hpre), re_sub_class.
Qed.

(** [int] on four digits. *)
Lemma py_int_fold g a :
  Forall (λ c, digit c = true) g →
  foldl (λ acc c, a ← acc; d ← decimal c; Some (10 * a + d)%Z) (Some a) g
  = Some (foldl (λ a c, (10 * a + default 0 (decimal c))%Z) a g).
Proof.
  intros Hg. revert a. induction Hg as [|c g Hc _ IH]; intros a; [done|].
  simpl. unfold digit in Hc. apply bool_decide_eq_true in Hc as [d Hd].
  rewrite Hd. simpl. apply IH.
Qed.

Lemma py_int_digits g :
  Forall (λ c, digit c = true) g → g ≠ [] → py_int g = Some (year_value g).
Proof.
  intros Hg Hne. unfold py_int, year_value.
  destruct g as [|c0 g0]; [done|]. by apply py_int_fold.
Qed.

Lemma int_year g : year4 g → int g = Ok (year_value g).
Proof.
  intros [Hlen Hg]. unfold int. rewrite py_int_digits; [done|done|].
  by destruct g.
Qed.

Lemma lower_year g : year4 g → lower g = g.
Proof.
  intros [_ Hg]. apply lower_decimal. eapply Forall_impl; [exact Hg|].
  intros c Hc. unfold digit in Hc. by apply bool_decide_eq_true in Hc.
Qed.

Lemma lower_present g : spells_present_ascii g → lower g = py "present".
Proof.
  intros Hg. unfold spells_present_ascii in Hg. cbn in Hg.
  repeat match goal with
         | H : Forall2 _ (_ :: _) _ |- _ =>
             let x := fresh "x" in let k := fresh "k" in
             let Hx := fresh "Hx" in let Hk := fresh "Hk" in
             apply Forall2_cons_inv_l in H as (x & k & Hx & Hk & ->)
         | H : Forall2 _ [] _ |- _ => apply Forall2_nil_inv_l in H as ->
         end.
  rewrite lower_ascii.
  - repeat match goal with
           | H : _ ∨ _ |- _ => destruct H as [-> | ->]
           end; reflexivity.
  - repeat constructor; unfold is_ascii; lia.
Qed.

(** [mapM] in the exception monad: every element succeeds, in order. *)
Lemma mapM_ok {A B} (f : A → result B) (l : list A) (k : list B) :
  mapM f l = Ok k ↔ Forall2 (λ x y, f x = Ok y) l k.
Proof.
  revert k. induction l as [|x l IH]; intros k; simpl.
  - split; [intros [= <-]; constructor|by inversion 1].
  - unfold mbind, result_bind, mret, result_ret.
    destruct (f x) as [y|e] eqn:Ex.
    + destruct (mapM f l) as [k'|e] eqn:El.
      * split.
        -- intros [= <-]. constructor; [done|]. by apply IH.
        -- inversion 1 as [|? y' ? k'' Hy Hk]; subst.
           apply IH in Hk. congruence.
      * split; [done|]. inversion 1 as [|? y' ? k'' Hy Hk]; subst.
        by apply IH in Hk.
    + split; [done|]. inversion 1; congruence.
Qed.

Lemma mapM_map_ok {A B} (f : A → result B) (g : A → B) (l : list A) :
  Forall (λ x, f x = Ok (g x)) l → mapM f l = Ok (map g l).
Proof.
  intros Hl. apply mapM_ok. induction Hl; simpl; by constructor.
Qed.

Lemma re_search_at r text pre suf caps rest :
  text = pre ++ suf → match_here r suf = Some (caps, rest) →
  (∀ pre1 suf1, text = pre1 ++ suf1 → length pre1 < length pre →
     match_here r suf1 = None) →
  re_search r text
  = Some (ReMatch pre (take (length suf - length rest) suf) caps rest).
Proof.
  intros -> Hm Hmin. apply search_from_some. exists pre, suf, caps, rest. done.
Qed.

Lemma findall_ranges text gs :
  ranges_of text gs →
  re_findall YEAR_RANGE text = map (λ g, [g.1; g.2]) gs.
Proof.
  unfold re_findall. induction 1 as [text Hno|text pre suf g1 g2 rest gs Heq Hr Hmin _ IH];
    rewrite finditer_step by apply consuming_YEAR_RANGE.
  - by rewrite (re_search_nowhere YEAR_RANGE range_shape (λ g, [g.1; g.2]) text
                  range_sound Hno).
  - rewrite (re_search_at YEAR_RANGE text pre suf [g1; g2] rest Heq).
    + simpl. by rewrite IH.
    + apply match_here_range. eauto.
    + intros pre1 suf1 Heq1 Hlt.
      destruct (match_here YEAR_RANGE suf1) as [[caps1 rest1]|] eqn:E; [|done].
      destruct (range_sound suf1 caps1 rest1 E) as (a & _ & Ha).
      by destruct (Hmin pre1 suf1 a Heq1 Hlt).
Qed.

Lemma ranges_of_shapes text gs :
  ranges_of text gs →
  Forall (λ g, year4 g.1 ∧ (year4 g.2 ∨ spells_present g.2)) gs.
Proof.
  induction 1 as [|text pre suf g1 g2 rest gs _ Hr _ _ IH]; constructor; [|done].
  destruct Hr as (ws1 & d & ws2 & _ & Hg1 & _ & _ & _ & Hg2). done.
Qed.

Lemma pairs_of_groups (gs : list (str * str)) :
  map (λ g, (nth 0 g [], nth 1 g [])) (map (λ g : str * str, [g.1; g.2]) gs)
  = gs.
Proof. induction gs as [|[a b] gs IH]; [done|]. simpl. by rewrite IH. Qed.

Lemma year_matches_ranges text g gs :
  ranges_of text (g :: gs) → year_matches text = g :: gs.
Proof.
  intros Hr. unfold year_matches. rewrite (findall_ranges text _ Hr).
  cbn [map]. rewrite pairs_of_groups. by destruct g.
Qed.

Lemma year_shape_of_range suf g : range_shape suf g → year_shape suf g.1.
Proof.
  intros (rest & ws1 & d & ws2 & -> & Hg1 & _). by eexists.
Qed.

Lemma year_matches_single text y :
  nowhere range_shape text → first_at year_shape text y →
  year_matches text = [(y, y)].
Proof.
  intros Hno Hy. unfold year_matches.
  rewrite (findall_ranges text [] (ranges_none text Hno)). cbn [map].
  unfold re_findall. rewrite finditer_step by apply consuming_group_digit4.
  destruct (re_search_first (Grp digit4) year_shape (λ g, [g]) text y
              year_group_sound year_group_complete Hy) as (m & -> & Hm).
  cbn [map]. by rewrite Hm.
Qed.

Lemma year_matches_none text :
  nowhere year_shape text → year_matches text = [].
Proof.
  intros Hno. unfold year_matches.
  rewrite (findall_ranges text []).
  - cbn [map]. unfold re_findall.
    rewrite finditer_step by apply consuming_group_digit4.
    by rewrite (re_search_nowhere (Grp digit4) year_shape (λ g, [g]) text
                  year_group_sound Hno).
  - constructor. intros pre suf g Heq Hg%year_shape_of_range.
    by destruct (Hno pre suf g.1 Heq).
Qed.

Lemma spells_present_ascii_length g : spells_present_ascii g → length g = 7.
Proof. intros Hg. apply Forall2_length in Hg. by rewrite <- Hg. Qed.

(** The end year the code computes for a second group. *)
Lemma end_year_computed ye :
  year4 ye ∨ spells_present_ascii ye →
  (if str_eqb (lower ye) (py "present") then Ok PRESENT_YEAR else int ye)
  = Ok (end_year ye).
Proof.
  unfold end_year, str_eqb. intros [Hy|Hp].
  - rewrite (lower_year ye Hy). destruct Hy as [Hlen Hg].
    rewrite bool_decide_eq_false_2.
    + rewrite Hlen. simpl. by apply int_year.
    + intros ->. done.
  - rewrite (lower_present ye Hp). rewrite bool_decide_eq_true_2 by done.
    by rewrite (spells_present_ascii_length ye Hp).
Qed.

End Cells.

Section CellEntries.
Context `{PyEnv}.

(** Every text has its list of ranges, the one the search finds. *)
Lemma ranges_of_finditer text :
  ranges_of text
    (map (λ m, (nth 0 (m_groups m) [], nth 1 (m_groups m) []))
         (finditer YEAR_RANGE text)).
Proof.
  remember (length text) as n eqn:Hn. revert text Hn.
  induction n as [n IH] using lt_wf_ind. intros text ->.
  rewrite finditer_step by apply consuming_YEAR_RANGE.
  destruct (re_search YEAR_RANGE text) as [m|] eqn:E.
  - pose proof E as Hm.
    apply search_from_some in Hm
      as (pre & suf & caps & rest & -> & Hm & Hmin & ->).
    apply match_here_range in Hm as (g1 & g2 & -> & Hr).
    cbn [map m_groups m_after nth].
    apply (ranges_more _ pre suf g1 g2 rest); [done|done| |].
    + intros pre1 suf1 a Heq Hlt Ha.
      destruct (range_complete suf1 a Ha) as [rest1 Hm1].
      by rewrite (Hmin pre1 suf1 Heq Hlt) in Hm1.
    + apply (IH (length rest)); [|done].
      destruct Hr as (ws1 & d & ws2 & -> & [Hl _] & _).
      rewrite !length_app. simpl. lia.
  - constructor. by apply no_range_of_search.
Qed.

Lemma crawl_cell_ranges text g gs :
  ranges_of text (g :: gs) →
  Forall (λ g, year4 g.2 ∨ spells_present_ascii g.2) (g :: gs) →
  Crawl.cell_entries text
  = Ok (map (λ g, Crawl.CareerEntry (or_unknown (team_text text)) []
                    (year_value g.1) (end_year g.2)) (g :: gs)).
Proof.
  intros Hr Hg2. unfold Crawl.cell_entries.
  rewrite (year_matches_ranges text g gs Hr).
  apply mapM_map_ok. apply ranges_of_shapes in Hr.
  rewrite Forall_forall in Hr, Hg2. apply Forall_forall.
  intros [ys ye] Hin. rewrite (end_year_computed ye (Hg2 _ Hin)).
  destruct (Hr _ Hin) as [Hys _]. simpl in Hys.
  unfold mbind, result_bind. by rewrite (int_year ys Hys).
Qed.

Lemma crawl_cell_single text y :
  nowhere range_shape text → first_at year_shape text y →
  Crawl.cell_entries text
  = Ok [Crawl.CareerEntry (or_unknown (team_text text)) []
          (year_value y) (year_value y)].
Proof.
  intros Hno Hy. unfold Crawl.cell_entries.
  rewrite (year_matches_single text y Hno Hy).
  destruct Hy as (pre & suf & _ & (rest & _ & Hy) & _).
  cbn [mapM]. rewrite (lower_year y Hy). unfold str_eqb.
  rewrite bool_decide_eq_false_2.
  - unfold mbind, result_bind. by rewrite (int_year y Hy).
  - destruct Hy as [Hlen _]. intros ->. done.
Qed.

Lemma crawl_cell_none text :
  nowhere year_shape text → Crawl.cell_entries text = Ok [].
Proof.
  intros Hno. unfold Crawl.cell_entries. by rewrite (year_matches_none text Hno).
Qed.

(** The same for the patch script's copy. *)
Lemma klint_cell_ranges text g gs :
  ranges_of text (g :: gs) →
  Forall (λ g, year4 g.2 ∨ spells_present_ascii g.2) (g :: gs) →
  PatchKlint.cell_entries text
  = Ok (map (λ g, PatchKlint.CareerEntry (or_unknown (team_text text))
                    (year_value g.1) (end_year g.2)) (g :: gs)).
Proof.
  intros Hr Hg2. unfold PatchKlint.cell_entries.
  rewrite (year_matches_ranges text g gs Hr).
  apply mapM_map_ok. apply ranges_of_shapes in Hr.
  rewrite Forall_forall in Hr, Hg2. apply Forall_forall.
  intros [ys ye] Hin. rewrite (end_year_computed ye (Hg2 _ Hin)).
  destruct (Hr _ Hin) as [Hys _]. simpl in Hys.
  unfold mbind, result_bind. by rewrite (int_year ys Hys).
Qed.

(** Concrete Basic Latin years, in any environment. *)
Lemma year4_ascii a b c d :
  Forall (λ x, (48 ≤ x ≤ 57)%N) [a; b; c; d] → year4 [a; b; c; d].
Proof.
  intros Hd. split; [done|]. eapply Forall_impl; [exact Hd|].
  intros x Hx. cbv beta in Hx. rewrite digit_ascii by (unfold is_ascii; lia).
  apply andb_true_iff. split; apply N.leb_le; lia.
Qed.

Lemma year_value_ascii a b c d :
  Forall (λ x, (48 ≤ x ≤ 57)%N) [a; b; c; d] →
  year_value [a; b; c; d]
  = (1000 * (Z.of_N a - 48) + 100 * (Z.of_N b - 48) + 10 * (Z.of_N c - 48)
     + (Z.of_N d - 48))%Z.
Proof.
  intros Hd. unfold year_value. cbn [foldl].
  repeat match goal with
         | H : Forall _ (_ :: _) |- _ =>
             let Hx := fresh "Hx" in apply Forall_cons in H as [Hx H];
             cbv beta in Hx
         end.
  rewrite !decimal_ascii by (unfold is_ascii; lia).
  repeat match goal with
         | |- context [((48 <=? ?x) && (?x <=? 57))%N] =>
             replace ((48 <=? x) && (x <=? 57))%N with true
               by (symmetry; apply andb_true_iff; split; apply N.leb_le; lia)
         end.
  simpl. lia.
Qed.

Lemma range_shape_long suf g : range_shape suf g → 9 ≤ length suf.
Proof.
  intros (rest & ws1 & d & ws2 & -> & [Hl1 _] & _ & _ & _ & Hg2).
  rewrite !length_app. simpl.
  destruct Hg2 as [[Hl2 _]|Hl2%Forall2_length].
  - lia.
  - change (length (py "present")) with 7 in Hl2. lia.
Qed.

Lemma no_range_in_short text : length text < 9 → nowhere range_shape text.
Proof.
  intros Hlen pre suf g -> Hg%range_shape_long. rewrite length_app in Hlen. lia.
Qed.

Lemma ranges_of_whole text g1 g2 :
  range_at_start text g1 g2 [] → ranges_of text [(g1, g2)].
Proof.
  intros Hr. apply (ranges_more text [] text g1 g2 [] []); [done|done| |].
  - intros pre1 suf1 a _ Hlt. simpl in Hlt. lia.
  - constructor. apply no_range_in_short. simpl. lia.
Qed.

Lemma before_first_year_start text g rest :
  text = g ++ rest → year4 g → before_first_year text [].
Proof.
  intros -> Hg. exists (g ++ rest), g. split; [done|]. split; [by exists rest|].
  intros pre1 suf1 a _ Hlt. simpl in Hlt. lia.
Qed.

Lemma team_text_leading_year text g rest :
  text = g ++ rest → year4 g → or_unknown (team_text text) = py "Unknown".
Proof.
  intros Ht Hg.
  by rewrite (team_text_before_year text [] (before_first_year_start _ _ _ Ht Hg)).
Qed.

End CellEntries.

Section CellClaims.
Context `{PyEnv}.

Lemma first_year_of_search text m y :
  re_search (Grp digit4) text = Some m → m_groups m = [y] →
  first_at year_shape text y.
Proof.
  apply (first_at_of_search (Grp digit4) year_shape (λ g, [g]) text y m
           year_group_sound year_group_complete).
  intros a b. congruence.
Qed.

Lemma before_first_year_of_search text m :
  re_search digit4 text = Some m → before_first_year text (m_before m).
Proof.
  intros (pre & suf & caps & rest & -> & Hm & Hmin & ->)%search_from_some.
  simpl. destruct (year_sound suf caps rest Hm) as (g & _ & Hg).
  exists suf, g. split; [done|]. split; [done|].
  intros pre1 suf1 a Heq Hlt Ha.
  destruct (year_complete suf1 a Ha) as [rest1 Hm1].
  by rewrite (Hmin pre1 suf1 Heq Hlt) in Hm1.
Qed.

Lemma no_year_of_search text :
  re_search digit4 text = None → nowhere year_shape text.
Proof.
  apply (nowhere_of_search digit4 year_shape (λ _, []) text year_complete).
Qed.

Lemma spells_present_of_ascii g : spells_present_ascii g → spells_present g.
Proof.
  unfold spells_present_ascii, spells_present. intros Hg.
  eapply Forall2_impl; [exact Hg|].
  intros c x [-> | ->]; unfold same_letter; auto.
Qed.

Lemma end_year_digits g2 : year4 g2 → end_year g2 = year_value g2.
Proof. intros [Hl _]. unfold end_year. by rewrite Hl. Qed.

Lemma end_year_present g2 : spells_present_ascii g2 → end_year g2 = PRESENT_YEAR.
Proof.
  intros Hl%spells_present_ascii_length. unfold end_year. by rewrite Hl.
Qed.

Lemma cell_example_range :
  Crawl.cell_entries (py "1995" ++ [EN_DASH] ++ py "1999")
  = Ok [Crawl.CareerEntry (py "Unknown") [] 1995 1999].
Proof.
  assert (year4 (py "1995")) as H1.
  { apply (year4_ascii 49 57 57 53). repeat constructor; lia. }
  assert (year4 (py "1999")) as H2.
  { apply (year4_ascii 49 57 57 57). repeat constructor; lia. }
  rewrite (crawl_cell_ranges _ (py "1995", py "1999") []).
  - cbn [map fst snd].
    rewrite (team_text_leading_year _ (py "1995") ([EN_DASH] ++ py "1999"))
      by done.
    rewrite (end_year_digits _ H2).
    change (py "1995") with [49; 57; 57; 53]%N.
    change (py "1999") with [49; 57; 57; 57]%N.
    rewrite !year_value_ascii by (repeat constructor; lia). done.
  - apply ranges_of_whole. exists [], EN_DASH, [].
    split; [done|]. split; [done|]. split; [constructor|].
    split; [by right|]. split; [constructor|by left].
  - apply Forall_cons. split; [by left|constructor].
Qed.

Lemma cell_example_present :
  Crawl.cell_entries (py "2020-present")
  = Ok [Crawl.CareerEntry (py "Unknown") [] 2020 PRESENT_YEAR].
Proof.
  assert (year4 (py "2020")) as H1.
  { apply (year4_ascii 50 48 50 48). repeat constructor; lia. }
  assert (spells_present_ascii (py "present")) as H2.
  { unfold spells_present_ascii.
    change (py "present") with [112; 114; 101; 115; 101; 110; 116]%N.
    repeat (apply Forall2_cons; split; [by left|]). constructor. }
  rewrite (crawl_cell_ranges _ (py "2020", py "present") []).
  - cbn [map fst snd].
    rewrite (team_text_leading_year _ (py "2020") (py "-present")) by done.
    rewrite (end_year_present _ H2).
    change (py "2020") with [50; 48; 50; 48]%N.
    rewrite !year_value_ascii by (repeat constructor; lia). done.
  - apply ranges_of_whole. exists [], 45%N, [].
    split; [done|]. split; [done|]. split; [constructor|].
    split; [by left|]. split; [constructor|].
    right. by apply spells_present_of_ascii.
  - apply Forall_cons. split; [by right|constructor].
Qed.

Lemma cell_example_single :
  Crawl.cell_entries (py "2003")
  = Ok [Crawl.CareerEntry (py "Unknown") [] 2003 2003].
Proof.
  assert (year4 (py "2003")) as H1.
  { apply (year4_ascii 50 48 48 51). repeat constructor; lia. }
  rewrite (crawl_cell_single _ (py "2003")).
  - rewrite (team_text_leading_year _ (py "2003") []) by done.
    change (py "2003") with [50; 48; 48; 51]%N.
    rewrite !year_value_ascii by (repeat constructor; lia). done.
  - apply no_range_in_short. simpl. lia.
  - exists [], (py "2003"). split; [done|]. split; [by exists []|].
    intros pre1 suf1 a _ Hlt. simpl in Hlt. lia.
Qed.

End CellClaims.

(** C6. The years of a career entry.  A cell whose text holds year ranges
    -- four digits, a hyphen or en dash (with optional whitespace), and
    four digits or the word [present] in ASCII letters of either case --
    yields one entry per range, with the first year as [year_start] and
    the second year, or the sentinel [PRESENT_YEAR] for the word, as
    [year_end]; a cell without a range but with four digits in a row
    yields one entry with the first such year as start and end.  So
    [1995–1999] gives (1995, 1999), [2020-present] gives (2020, sentinel)
    and [2003] gives (2003, 2003). *)
Theorem career_years `{PyEnv} :
  (∀ text g gs,
     ranges_of text (g :: gs) →
     Forall (λ g, year4 g.2 ∨ spells_present_ascii g.2) (g :: gs) →
     Crawl.cell_entries text
     = Ok (map (λ g, Crawl.CareerEntry (or_unknown (team_text text)) []
                       (year_value g.1) (end_year g.2)) (g :: gs)))
  ∧ (∀ g2, year4 g2 → end_year g2 = year_value g2)
  ∧ (∀ g2, spells_present_ascii g2 → end_year g2 = PRESENT_YEAR)
  ∧ (∀ text y,
       nowhere range_shape text → first_at year_shape text y →
       Crawl.cell_entries text
       = Ok [Crawl.CareerEntry (or_unknown (team_text text)) []
               (year_value y) (year_value y)])
  ∧ Crawl.cell_entries (py "1995" ++ [EN_DASH] ++ py "1999")
    = Ok [Crawl.CareerEntry (py "Unknown") [] 1995 1999]
  ∧ Crawl.cell_entries (py "2020-present")
    = Ok [Crawl.CareerEntry (py "Unknown") [] 2020 PRESENT_YEAR]
  ∧ Crawl.cell_entries (py "2003")
    = Ok [Crawl.CareerEntry (py "Unknown") [] 2003 2003].
Proof.
  split; [apply crawl_cell_ranges|].
  split; [apply end_year_digits|].
  split; [apply end_year_present|].
  split; [apply crawl_cell_single|].
  split; [apply cell_example_range|].
  split; [apply cell_example_present|apply cell_example_single].
Qed.

Lemma career_years_witness :
  @Crawl.cell_entries toy_env (py "Green Bay Packers (1992-1998)")
    = Ok [Crawl.CareerEntry (py "Green Bay Packers") [] 1992 1998]
  ∧ @end_year toy_env (py "1998") = @year_value toy_env (py "1998")
  ∧ @end_year toy_env (py "Present") = PRESENT_YEAR
  ∧ @Crawl.cell_entries toy_env (py "Oakland Raiders 1998")
    = Ok [Crawl.CareerEntry (py "Oakland Raiders") [] 1998 1998].
Proof.
  pose proof (@career_years toy_env) as (Hranges & Hdigits & Hword & Hsingle & _).
  split; [|split; [|split]].
  - rewrite (Hranges _ (py "1992", py "1998") []).
    + vm_compute. reflexivity.
    + replace [(py "1992", py "1998")]
        with (map (λ m, (nth 0 (m_groups m) [], nth 1 (m_groups m) []))
                (finditer (@YEAR_RANGE toy_env) (py "Green Bay Packers (1992-1998)")))
        by (vm_compute; reflexivity).
      apply (@ranges_of_finditer toy_env).
    + apply Forall_cons. split; [|constructor].
      left. split; [reflexivity|].
      repeat (apply Forall_cons; split; [vm_compute; reflexivity|]).
      constructor.
  - apply Hdigits. split; [reflexivity|].
    repeat (apply Forall_cons; split; [vm_compute; reflexivity|]).
    constructor.
  - apply Hword. unfold spells_present_ascii.
    change (py "present") with [112; 114; 101; 115; 101; 110; 116]%N.
    change (py "Present") with [80; 114; 101; 115; 101; 110; 116]%N.
    apply Forall2_cons. split; [by right|].
    repeat (apply Forall2_cons; split; [by left|]). constructor.
  - rewrite (Hsingle _ (py "1998")).
    + vm_compute. reflexivity.
    + apply (@no_range_of_search toy_env). vm_compute. reflexivity.
    + apply (@first_year_of_search toy_env _
               (ReMatch (py "Oakland Raiders ") (py "1998") [py "1998"] []));
        vm_compute; reflexivity.
Defined.

Section CellTeam.
Context `{PyEnv}.

Lemma crawl_cell_team text es e :
  Crawl.cell_entries text = Ok es → e ∈ es →
  Crawl.team e = or_unknown (team_text text).
Proof.
  unfold Crawl.cell_entries. intros Hes%mapM_ok He.
  induction Hes as [|[ys ye] e' l k Hx _ IH]; [by apply elem_of_nil in He|].
  apply elem_of_cons in He as [-> |He]; [|by apply IH].
  unfold mbind, result_bind in Hx.
  destruct (if str_eqb (lower ye) (py "present") then _ else _);
    [|discriminate].
  destruct (int ys); [|discriminate].
  by injection Hx as <-.
Qed.

Lemma klint_cell_team text es e :
  PatchKlint.cell_entries text = Ok es → e ∈ es →
  PatchKlint.team e = or_unknown (team_text text).
Proof.
  unfold PatchKlint.cell_entries. intros Hes%mapM_ok He.
  induction Hes as [|[ys ye] e' l k Hx _ IH]; [by apply elem_of_nil in He|].
  apply elem_of_cons in He as [-> |He]; [|by apply IH].
  unfold mbind, result_bind in Hx.
  destruct (if str_eqb (lower ye) (py "present") then _ else _);
    [|discriminate].
  destruct (int ys); [|discriminate].
  by injection Hx as <-.
Qed.

Lemma klint_cell_none text :
  nowhere year_shape text → PatchKlint.cell_entries text = Ok [].
Proof.
  intros Hno. unfold PatchKlint.cell_entries.
  by rewrite (year_matches_none text Hno).
Qed.

Lemma year_or_nowhere text :
  (∃ pre, before_first_year text pre) ∨ nowhere year_shape text.
Proof.
  destruct (re_search digit4 text) as [m|] eqn:Em.
  - left. exists (m_before m). by apply before_first_year_of_search.
  - right. by apply no_year_of_search.
Qed.

Lemma or_unknown_placeholder t :
  or_unknown t = py "Unknown" ↔ t = [] ∨ t = py "Unknown".
Proof.
  unfold or_unknown. destruct t as [|c t]; simpl.
  - split; [by left|done].
  - split; [by right|]. by intros [?|?].
Qed.

End CellTeam.

(** C7, as the code has it.  The team name of a career entry is the cell
    text before the first four digits in a row, with the parenthesis
    characters removed and the whitespace at both ends trimmed; what follows
    the first year never reaches the name.  Every cell that yields an entry
    has such a first year.  The name is the placeholder [Unknown] exactly
    when that text is empty (or is the word [Unknown] itself). *)
Theorem career_team `{PyEnv} :
  (∀ text pre es e,
     before_first_year text pre →
     Crawl.cell_entries text = Ok es → e ∈ es →
     Crawl.team e = or_unknown (strip (remove_parens (strip pre))))
  ∧ (∀ text pre es e,
       before_first_year text pre →
       PatchKlint.cell_entries text = Ok es → e ∈ es →
       PatchKlint.team e = or_unknown (strip (remove_parens (strip pre))))
  ∧ (∀ text es,
       Crawl.cell_entries text = Ok es → es ≠ [] →
       ∃ pre, before_first_year text pre)
  ∧ (∀ text es,
       PatchKlint.cell_entries text = Ok es → es ≠ [] →
       ∃ pre, before_first_year text pre)
  ∧ (∀ t, or_unknown t = py "Unknown" ↔ t = [] ∨ t = py "Unknown").
Proof.
  split; [|split; [|split; [|split]]].
  - intros text pre es e Hpre Hes He.
    rewrite (crawl_cell_team text es e Hes He).
    by rewrite (team_text_before_year text pre Hpre).
  - intros text pre es e Hpre Hes He.
    rewrite (klint_cell_team text es e Hes He).
    by rewrite (team_text_before_year text pre Hpre).
  - intros text es Hes Hne. destruct (year_or_nowhere text) as [?|Hno]; [done|].
    rewrite (crawl_cell_none text Hno) in Hes. by injection Hes as <-.
  - intros text es Hes Hne. destruct (year_or_nowhere text) as [?|Hno]; [done|].
    rewrite (klint_cell_none text Hno) in Hes. by injection Hes as <-.
  - apply or_unknown_placeholder.
Qed.

Lemma career_team_witness :
  @before_first_year toy_env (py "Green Bay Packers (1992-1998)")
    (py "Green Bay Packers (")
  ∧ @Crawl.cell_entries toy_env (py "Green Bay Packers (1992-1998)")
    = Ok [Crawl.CareerEntry (py "Green Bay Packers") [] 1992 1998]
  ∧ Crawl.team (Crawl.CareerEntry (py "Green Bay Packers") [] 1992 1998)
    = or_unknown (strip (remove_parens (strip (py "Green Bay Packers (")))).
Proof.
  assert (@before_first_year toy_env (py "Green Bay Packers (1992-1998)")
            (py "Green Bay Packers (")) as Hpre.
  { apply (@before_first_year_of_search toy_env _
             (ReMatch (py "Green Bay Packers (") (py "1992") [] (py "-1998)"))).
    vm_compute. reflexivity. }
  assert (@Crawl.cell_entries toy_env (py "Green Bay Packers (1992-1998)")
          = Ok [Crawl.CareerEntry (py "Green Bay Packers") [] 1992 1998])
    as Hes by (vm_compute; reflexivity).
  split; [exact Hpre|]. split; [exact Hes|].
  apply (proj1 (@career_team toy_env) _ _ _ _ Hpre Hes).
  apply list_elem_of_here.
Defined.

(** C7, as the spec words it, fails where text follows the first year: the
    cell [1995-1999 Dallas Cowboys] gives the team [Unknown], not
    [Dallas Cowboys], and the role after the years of
    [Green Bay Packers (1992-1998) Offensive assistant] is not in the team
    name. *)
Lemma career_team_not_year_stripped :
  @Crawl.cell_entries latin (py "1995-1999 Dallas Cowboys")
    = Ok [Crawl.CareerEntry (py "Unknown") [] 1995 1999]
  ∧ @PatchKlint.cell_entries latin (py "1995-1999 Dallas Cowboys")
    = Ok [PatchKlint.CareerEntry (py "Unknown") 1995 1999]
  ∧ claimed_team (py "1995-1999 Dallas Cowboys") (py "1995-1999")
    = py "Dallas Cowboys"
  ∧ @Crawl.cell_entries latin
      (py "Green Bay Packers (1992-1998) Offensive assistant")
    = Ok [Crawl.CareerEntry (py "Green Bay Packers") [] 1992 1998]
  ∧ claimed_team (py "Green Bay Packers (1992-1998) Offensive assistant")
      (py "1992-1998")
    = py "Green Bay Packers  Offensive assistant".
Proof. repeat split; vm_compute; reflexivity. Qed.


Section Substrings.

Lemma startswith_spec p s : startswith p s = true ↔ ∃ suf, s = p ++ suf.
Proof.
  revert s. induction p as [|a p IH]; intros s; simpl.
  - split; [by exists s|done].
  - destruct s as [|b s].
    + split; [done|by intros [? ?]].
    + rewrite andb_true_iff, N.eqb_eq, IH. split.
      * intros [-> [suf ->]]. by exists suf.
      * intros [suf [= -> ->]]. split; [done|by exists suf].
Qed.

Lemma contains_spec sub s :
  contains sub s = true ↔ ∃ pre suf, s = pre ++ sub ++ suf.
Proof.
  induction s as [|c s IH].
  - cbn [contains]. rewrite orb_false_r, startswith_spec. split.
    + intros [suf ->]. by exists [], suf.
    + intros (pre & suf & Hs). destruct pre; [by exists suf|done].
  - cbn [contains]. rewrite orb_true_iff, startswith_spec, IH. split.
    + intros [[suf ->]|(pre & suf & ->)]; [by exists [], suf|].
      by exists (c :: pre), suf.
    + intros (pre & suf & Hs). destruct pre as [|d pre].
      * left. by exists suf.
      * right. injection Hs as -> ->. by exists pre, suf.
Qed.

(** A text that holds a phrase holds every part of the phrase. *)
Lemma contains_inner a b c s :
  contains (a ++ b ++ c) s = true → contains b s = true.
Proof.
  rewrite !contains_spec. intros (pre & suf & ->).
  exists (pre ++ a), (c ++ suf). by rewrite <- !(assoc_L (++)).
Qed.

Lemma contains_inner_orb a b c s x :
  contains b s || contains (a ++ b ++ c) s || x = contains b s || x.
Proof.
  destruct (contains (a ++ b ++ c) s) eqn:E.
  - by rewrite (contains_inner a b c s E).
  - by rewrite orb_false_r.
Qed.

End Substrings.

Section Drift.
Context `{PyEnv}.



Lemma paragraph_context_same p_text current_context :
  Crawl.paragraph_context p_text current_context
  = PatchKlint.paragraph_context p_text current_context.
Proof.
  unfold Crawl.paragraph_context, PatchKlint.paragraph_context.
  change (py "has served under")
    with (py "has " ++ py "served under" ++ []).
  by rewrite contains_inner_orb.
Qed.

Lemma crawl_scan_with elems ctx results :
  Crawl.scan_section elems ctx results
  = scan_with Crawl.paragraph_context Crawl.list_item elems ctx results.
Proof.
  revert ctx results. induction elems as [|elem elems IH]; intros; [done|].
  cbn [Crawl.scan_section scan_with]. by rewrite !IH.
Qed.

Lemma klint_scan_with elems ctx results :
  PatchKlint.scan_section elems ctx results
  = scan_with PatchKlint.paragraph_context PatchKlint.list_item
      elems ctx results.
Proof.
  revert ctx results. induction elems as [|elem elems IH]; intros; [done|].
  cbn [PatchKlint.scan_section scan_with]. by rewrite !IH.
Qed.












End Drift.

(** C9, at the failing inputs: the patch script does not reuse the crawl's
    extractors, it carries copies of them that lack the team nicknames among
    the skip words and [achievements] and [honors] among the headers that
    end the coaching block.  Its link classifier takes [Los Angeles Rams]
    and [Buster Ramsey] (which holds [rams]) for persons where the crawl's
    rejects them, so the section parsers differ on a page that lists such a
    link; and on a page whose infobox has an honours block after the
    coaching career, its career extractor reads [Pro Bowl (1954)] as a job
    where the crawl's has left the block. *)
Theorem patch_extractors_differ :
  @Crawl.is_person_link latin (py "Los Angeles Rams") = false
  ∧ @PatchKlint.is_person_link latin (py "Los Angeles Rams") = true
  ∧ @Crawl.is_person_link latin (py "Buster Ramsey") = false
  ∧ @PatchKlint.is_person_link latin (py "Buster Ramsey") = true
  ∧ @Crawl.parse_coaching_tree_section drift_env toy_html (py "Andy Reid") = []
  ∧ @PatchKlint.parse_coaching_tree_section drift_env toy_html (py "Andy Reid")
    = [(py "Buster Ramsey", py "Buster Ramsey", protege, py "Buster Ramsey")]
  ∧ @Crawl.parse_career_history drift_env (@BeautifulSoup drift_env toy_html)
    = Ok [Crawl.CareerEntry (py "Buffalo Bills") [] 1960 1961]
  ∧ @PatchKlint.parse_infobox_career drift_env toy_html
    = Ok [PatchKlint.CareerEntry (py "Buffalo Bills") 1960 1961;
          PatchKlint.CareerEntry (py "Pro Bowl") 1954 1954].
Proof. repeat split; vm_compute; reflexivity. Qed.


Section Classifier.
Context `{PyEnv}.

Variable paragraph : str → relationship → relationship.
Variable item : relationship → node → option tree_member.
Hypothesis paragraph_spec : ∀ text state,
  paragraph text state = interpretation text state.

Let state_step (state : relationship) (elem : node) : relationship :=
  if has_name [py "p"] elem
  then interpretation (lower (get_text elem)) state else state.

Lemma scan_with_members elems ctx results m :
  m ∈ scan_with paragraph item elems ctx results ↔
  m ∈ results
  ∨ ∃ before elem after li,
      elems = before ++ elem :: after
      ∧ has_name [py "p"] elem = false
      ∧ li ∈ find_all [py "li"] elem
      ∧ item (foldl state_step ctx before) li = Some m.
Proof.
  revert ctx results. induction elems as [|elem elems IH]; intros ctx results.
  - simpl. split; [by left|]. intros [?|(before & ? & ? & ? & Hnil & _)]; [done|].
    by destruct before.
  - cbn [scan_with]. destruct (has_name [py "p"] elem) eqn:Ep.
    + rewrite IH, paragraph_spec. split.
      * intros [?|(before & e & after & li & -> & He & Hli & Hm)]; [by left|].
        right. exists (elem :: before), e, after, li.
        repeat split; [done..|]. cbn [foldl]. unfold state_step at 2.
        by rewrite Ep.
      * intros [?|(before & e & after & li & Heq & He & Hli & Hm)]; [by left|].
        right. destruct before as [|b before].
        { injection Heq as -> ->. congruence. }
        injection Heq as -> ->. exists before, e, after, li.
        repeat split; [done..|]. cbn [foldl] in Hm. unfold state_step at 2 in Hm.
        by rewrite Ep in Hm.
    + rewrite IH, elem_of_app, list_elem_of_omap. split.
      * intros [[?|(li & Hli & Hm)]|(before & e & after & li & -> & He & Hli & Hm)].
        -- by left.
        -- right. by exists [], elem, elems, li.
        -- right. exists (elem :: before), e, after, li.
           repeat split; [done..|]. cbn [foldl]. unfold state_step at 2.
           by rewrite Ep.
      * intros [?|(before & e & after & li & Heq & He & Hli & Hm)];
          [by left; left|].
        destruct before as [|b before].
        -- injection Heq as -> ->. left. right. by exists li.
        -- injection Heq as -> ->. right. exists before, e, after, li.
           repeat split; [done..|]. cbn [foldl] in Hm.
           unfold state_step at 2 in Hm. by rewrite Ep in Hm.
Qed.

End Classifier.

Section ClassifierRoles.
Context `{PyEnv}.

Lemma crawl_members section_soup m :
  m ∈ Crawl.parse_section_soup section_soup ↔
  ∃ before li,
    item_after section_soup before li
    ∧ Crawl.list_item (paragraph_state before) li = Some m.
Proof.
  unfold Crawl.parse_section_soup. rewrite crawl_scan_with.
  rewrite (scan_with_members _ _ (λ _ _, eq_refl)). split.
  - intros [[]%elem_of_nil|(before & elem & after & li & ? & ? & ? & ?)].
    exists before, li. split; [by exists elem, after|done].
  - intros (before & li & (elem & after & ? & ? & ?) & ?).
    right. by exists before, elem, after, li.
Qed.

Lemma klint_members section_soup m :
  m ∈ PatchKlint.parse_section_soup section_soup ↔
  ∃ before li,
    item_after section_soup before li
    ∧ PatchKlint.list_item (paragraph_state before) li = Some m.
Proof.
  unfold PatchKlint.parse_section_soup. rewrite klint_scan_with.
  rewrite (scan_with_members _ _
             (λ t s, eq_sym (paragraph_context_same t s))). split.
  - intros [[]%elem_of_nil|(before & elem & after & li & ? & ? & ? & ?)].
    exists before, li. split; [by exists elem, after|done].
  - intros (before & li & (elem & after & ? & ? & ?) & ?).
    right. by exists before, elem, after, li.
Qed.

Lemma crawl_item_role state li m :
  Crawl.list_item state li = Some m →
  role_of m = if local_override li then mentor else state.
Proof.
  unfold Crawl.list_item, local_override.
  destruct (Crawl.first_person_link _) as [[link_text title]|]; [|done].
  by intros [= <-].
Qed.

Lemma klint_item_role state li m :
  PatchKlint.list_item state li = Some m →
  role_of m = if local_override li then mentor else state.
Proof.
  unfold PatchKlint.list_item, local_override.
  destruct (PatchKlint.first_person_link _) as [[link_text title]|]; [|done].
  by intros [= <-].
Qed.

Lemma paragraph_state_lists state lists :
  Forall (λ elem, has_name [py "p"] elem = false) lists →
  foldl (λ state elem,
           if has_name [py "p"] elem
           then interpretation (lower (get_text elem)) state
           else state) state lists = state.
Proof.
  induction 1 as [|elem lists He _ IH]; [done|].
  cbn [foldl]. by rewrite He.
Qed.

Lemma served_under_belichick state :
  interpretation (lower (py "He later served under Bill Belichick.")) state
  = mentor.
Proof.
  rewrite lower_ascii.
  - reflexivity.
  - unfold is_ascii.
    repeat (apply Forall_cons; split; [reflexivity|]). constructor.
Qed.

Lemma only_paragraph_state section_soup before li :
  only_paragraph section_soup (py "He later served under Bill Belichick.") →
  item_after section_soup before li →
  paragraph_state before = mentor.
Proof.
  intros (p & lists & Hall & Hp & Htext & Hlists) (elem & after & Heq & He & _).
  rewrite Hall in Heq. destruct before as [|b before].
  - injection Heq as ->. congruence.
  - injection Heq as <- Hl. unfold paragraph_state. cbn [foldl].
    rewrite Hp, Htext, served_under_belichick.
    apply paragraph_state_lists.
    rewrite Hl in Hlists. by apply Forall_app in Hlists as [? _].
Qed.

End ClassifierRoles.

(** C4. The relationship roles of a coaching-tree section.  The results
    are the list items (those with a person link) of the [ul] and [ol]
    elements, each parsed under the paragraph-level state its element is
    reached with: [protege] at first, updated by every paragraph before it
    with the spec's rules.  The role of a list item is that state, unless
    its own text holds [served under] or [worked under]: then it is
    [mentor].  In a section whose only paragraph reads
    [He later served under Bill Belichick.], every role is [mentor].  The
    same holds of the patch script's copy. *)
Theorem list_item_roles `{PyEnv} :
  (∀ section_soup m,
     m ∈ Crawl.parse_section_soup section_soup ↔
     ∃ before li,
       item_after section_soup before li
       ∧ Crawl.list_item (paragraph_state before) li = Some m)
  ∧ (∀ state li m,
       Crawl.list_item state li = Some m →
       role_of m = if local_override li then mentor else state)
  ∧ (∀ section_soup m,
       only_paragraph section_soup
         (py "He later served under Bill Belichick.") →
       m ∈ Crawl.parse_section_soup section_soup → role_of m = mentor)
  ∧ (∀ section_soup m,
       m ∈ PatchKlint.parse_section_soup section_soup ↔
       ∃ before li,
         item_after section_soup before li
         ∧ PatchKlint.list_item (paragraph_state before) li = Some m)
  ∧ (∀ state li m,
       PatchKlint.list_item state li = Some m →
       role_of m = if local_override li then mentor else state)
  ∧ (∀ section_soup m,
       only_paragraph section_soup
         (py "He later served under Bill Belichick.") →
       m ∈ PatchKlint.parse_section_soup section_soup → role_of m = mentor).
Proof.
  split; [apply crawl_members|]. split; [apply crawl_item_role|].
  split.
  { intros soup m Honly (before & li & Hafter & Hm)%crawl_members.
    rewrite (crawl_item_role _ _ _ Hm).
    rewrite (only_paragraph_state soup before li Honly Hafter).
    by destruct (local_override li). }
  split; [apply klint_members|]. split; [apply klint_item_role|].
  intros soup m Honly (before & li & Hafter & Hm)%klint_members.
  rewrite (klint_item_role _ _ _ Hm).
  rewrite (only_paragraph_state soup before li Honly Hafter).
  by destruct (local_override li).
Qed.


Lemma list_item_roles_witness :
  @only_paragraph toy_env belichick_section
    (py "He later served under Bill Belichick.")
  ∧ (py "Brian Flores", py "Brian Flores", mentor, py "Brian Flores")
    ∈ @Crawl.parse_section_soup toy_env belichick_section
  ∧ role_of (py "Brian Flores", py "Brian Flores", mentor, py "Brian Flores")
    = mentor.
Proof.
  assert (@only_paragraph toy_env belichick_section
            (py "He later served under Bill Belichick.")) as Honly.
  { exists belichick_paragraph, [belichick_list].
    split; [vm_compute; reflexivity|]. split; [vm_compute; reflexivity|].
    split; [vm_compute; reflexivity|].
    apply Forall_cons. split; [vm_compute; reflexivity|constructor]. }
  assert ((py "Brian Flores", py "Brian Flores", mentor, py "Brian Flores")
          ∈ @Crawl.parse_section_soup toy_env belichick_section) as Hm.
  { replace (@Crawl.parse_section_soup toy_env belichick_section)
      with [(py "Josh McDaniels", py "Josh McDaniels", mentor,
             py "Josh McDaniels");
            (py "Brian Flores", py "Brian Flores", mentor, py "Brian Flores")]
      by (vm_compute; reflexivity).
    apply list_elem_of_further, list_elem_of_here. }
  split; [exact Honly|]. split; [exact Hm|].
  pose proof (@list_item_roles toy_env) as (_ & _ & Hrole & _).
  exact (Hrole _ _ Honly Hm).
Defined.


Section MissingShape.
Import PatchMissing.





End MissingShape.








Section KlintShape.
Context `{PyEnv}.




End KlintShape.





Section CrawlRequests.
Context `{PyEnv}.
Variables (max_depth max_pages : nat) (net : Crawl.network).


End CrawlRequests.




Section CrawlDepth.
Context `{PyEnv}.
Variables (max_depth max_pages : nat) (net : Crawl.network).







Lemma loop_reachable (seeds : list Crawl.seed) (requests : nat) fuel st evs st' :
  reachable max_depth max_pages net seeds requests st →
  Crawl.loop max_depth max_pages net fuel st = (evs, Some (Ok st')) →
  reachable max_depth max_pages net seeds requests st'.
Proof.
  intros Hst.
  apply (loop_invariant max_depth max_pages net
           (reachable max_depth max_pages net seeds requests)); [|done].
  intros st0 ev st1 H0 Hs. by eapply reach_step.
Qed.

End CrawlDepth.




